(** * Tag and release reconciliation script: option model and reconcilers

    A shallow embedding of the command line script that resets (create)
    or verifies (check) the tags and releases of a hosted repository.

    What is modelled, and how:
    - JavaScript strings are [string]; [undefined] and [null] values of a
      string-typed slot are [None].  Splitting is done on the ASCII
      separators [","] and [":"] only, which never occur inside a
      multi-byte character.
    - [logAndQuit] ends the process with status 1: the option model
      returns [Die], the reconcilers return [Quit].
    - The hosting client is a collaborator.  A [Remote] value fixes what
      the listing calls and [getBranch] answer and which requests are
      rejected; every request carries the same owner and repository, so
      these are left out of the recorded calls.
    - A run records the requests it issues, the delays it awaits and the
      mismatch reports that [runChecks] prints.  Progress lines written
      to the console are not recorded. *)

From Stdlib Require Import List String Ascii ZArith Bool Lia Permutation.
Import ListNotations.
Local Open Scope string_scope.
Local Open Scope list_scope.

(** ** JavaScript helpers *)

(** [s.split(sep)] for a one-character separator: never empty, the
    empty string gives one empty piece. *)
Fixpoint split_on (sep : ascii) (s : string) : list string :=
  match s with
  | EmptyString => [EmptyString]
  | String c rest =>
      if Ascii.eqb c sep then EmptyString :: split_on sep rest
      else match split_on sep rest with
           | [] => [String c EmptyString]
           | piece :: pieces => String c piece :: pieces
           end
  end.

(** [pieces.join(sep)]. *)
Definition join (sep : string) (pieces : list string) : string :=
  String.concat sep pieces.

(** Truthiness of a slot holding a string or [undefined]: only a
    non-empty string is truthy. *)
Definition truthy (v : option string) : bool :=
  match v with
  | Some s => negb (s =? "")
  | None => false
  end.

(** Arrays are objects, hence always truthy. *)
Definition truthy_array {A : Type} (xs : list A) : bool := true.

(** A slot interpolated into a template literal. *)
Definition show (v : option string) : string :=
  match v with
  | Some s => s
  | None => "undefined"
  end.

Definition show_bool (b : bool) : string := if b then "true" else "false".

(** [a === b] where [a] is a string or [null] and [b] a string or
    [undefined]: equal only when both are the same string. *)
Definition strict_eq (a b : option string) : bool :=
  match a, b with
  | Some x, Some y => x =? y
  | _, _ => false
  end.

Definition tab : string := String (ascii_of_nat 9) EmptyString.
Definition newline : string := String (ascii_of_nat 10) EmptyString.

(** ** Option model *)

(** The object pushed by [processArguments] for one raw option. *)
Record CliOption : Type := mkOption {
  opt_name : option string;
  opt_tag : option string;
  opt_draft : bool
}.

(** The one-key object returned by [processOptionPart]:
    [{tag: value}], [{name: value}] or [{draft: value === "true"}]. *)
Inductive Part : Type :=
| PartTag (value : option string)
| PartName (value : option string)
| PartDraft (value : bool).

Inductive Fatal : Type :=
| UnsupportedCommand (command : option string)
| UnexpectedOptionPart (part : string)
| InvalidOption (o : CliOption)
| NoOptionsSupplied
| UnexpectedOption (o : CliOption).

(** Result of code that may call [logAndQuit]. *)
Inductive Result (A : Type) : Type :=
| Ok (a : A)
| Die (f : Fatal).
Arguments Ok {A} a.
Arguments Die {A} f.

Definition API_DELAY_MS : Z := 2500.
Definition SUPPORTED_COMMANDS : list string := ["create"; "check"].

(** [SUPPORTED_COMMANDS.includes(command)], [command] possibly
    [undefined]. *)
Definition includes (xs : list string) (v : option string) : bool :=
  match v with
  | Some s => existsb (String.eqb s) xs
  | None => false
  end.

Definition processOptionPart (option : string) : Result Part :=
  let pieces := split_on ":" option in
  let name := hd EmptyString pieces in
  let value := nth_error pieces 1 in
  if name =? "tag" then Ok (PartTag value)
  else if name =? "rel" then Ok (PartName value)
  else if name =? "dft" then Ok (PartDraft (strict_eq value (Some "true")))
  else Die (UnexpectedOptionPart option).

Definition isTagOption (option : CliOption) : bool :=
  truthy (opt_tag option) && negb (truthy (opt_name option))
  && negb (opt_draft option).

Definition isReleaseOption (option : CliOption) : bool :=
  truthy (opt_name option).

(** The properties read off a part; a key the object does not have
    reads as [undefined]. *)
Definition part_tag (it : Part) : option string :=
  match it with PartTag v => v | _ => None end.

Definition part_name (it : Part) : option string :=
  match it with PartName v => v | _ => None end.

Definition part_draft (it : Part) : option bool :=
  match it with PartDraft b => Some b | _ => None end.

Definition defined {A : Type} (v : option A) : bool :=
  match v with Some _ => true | None => false end.

(** [xs.map(f)] where [f] may quit: the first part that quits ends the
    process. *)
Fixpoint map_result {A B : Type} (f : A -> Result B) (xs : list A)
  : Result (list B) :=
  match xs with
  | [] => Ok []
  | x :: rest =>
      match f x with
      | Die e => Die e
      | Ok y =>
          match map_result f rest with
          | Die e => Die e
          | Ok ys => Ok (y :: ys)
          end
      end
  end.

(** [processedOptions.find(p)?.field]. *)
Definition first_field {A : Type} (field : Part -> option A)
  (processedOptions : list Part) : option A :=
  match find (fun it => defined (field it)) processedOptions with
  | Some it => field it
  | None => None
  end.

(** The object assembled from the parts of one raw option. *)
Definition assemble (processedOptions : list Part) : CliOption :=
  let tag := first_field part_tag processedOptions in
  let name := first_field part_name processedOptions in
  let draft :=
    match first_field part_draft processedOptions with
    | Some b => b
    | None => false
    end in
  {| opt_name := name; opt_tag := tag; opt_draft := draft |}.

(** Body of the loop over [rawOptions]. *)
Definition processRawOption (rawOption : string) : Result CliOption :=
  match map_result processOptionPart (split_on "," rawOption) with
  | Die e => Die e
  | Ok processedOptions => Ok (assemble processedOptions)
  end.

Definition unclassifiable (option : CliOption) : bool :=
  negb (isTagOption option) && negb (isReleaseOption option).

(** [argv] is [process.argv]: the interpreter, the script, the command
    and the raw options. *)
Definition processArguments (argv : list string)
  : Result (option string * list CliOption) :=
  let command := nth_error argv 2 in
  if negb (includes SUPPORTED_COMMANDS command)
  then Die (UnsupportedCommand command)
  else
    let rawOptions := skipn 3 argv in
    match map_result processRawOption rawOptions with
    | Die e => Die e
    | Ok options =>
        match find unclassifiable options with
        | Some option => Die (InvalidOption option)
        | None => Ok (command, options)
        end
    end.

(** ** Remote repository *)

Record RemoteRelease : Type := mkRelease {
  release_id : Z;
  release_name : option string;
  release_tag_name : string;
  release_draft : bool
}.

Record RemoteTag : Type := mkTag {
  tag_name : string;
  tag_commit_sha : string
}.

(** The requests the script sends through the client. *)
Inductive Call : Type :=
| ListReleases
| ListTags
| DeleteRelease (release_id : Z)
| DeleteRef (ref : string)
| CreateRelease (tag_name name : option string) (draft : bool)
| CreateRef (ref : string) (sha : option string)
| GetBranch (branch : string).

Inductive Event : Type :=
| Request (call : Call)
| Delay (timeoutMs : Z)
| Report (message : string).

(** What the repository answers during one run.  [releases_data] and
    [tags_data] are the [data] of the listing responses ([None] when
    absent), [main_sha] is the tip of [main], and [rejects n] tells
    whether the request number [n] of the run (from 0) is rejected. *)
Record Remote : Type := mkRemote {
  releases_data : option (list RemoteRelease);
  tags_data : option (list RemoteTag);
  main_sha : string;
  rejects : nat -> bool
}.

(** ** Runs *)

Record Process : Type := mkProcess {
  trace : list Event;
  exitCode : Z
}.

Inductive Res (A : Type) : Type :=
| Ret (a : A)
| Quit (f : Fatal)
| Rejected.
Arguments Ret {A} a.
Arguments Quit {A} f.
Arguments Rejected {A}.

Definition M (A : Type) : Type := Process -> Res A * Process.

Definition ret {A : Type} (a : A) : M A := fun p => (Ret a, p).

Definition bind {A B : Type} (m : M A) (k : A -> M B) : M B :=
  fun p =>
    match m p with
    | (Ret a, p') => k a p'
    | (Quit f, p') => (Quit f, p')
    | (Rejected, p') => (Rejected, p')
    end.

Notation "x <- m ;; k" := (bind m (fun x => k))
  (at level 61, m at next level, right associativity).
Notation "m ;; k" := (bind m (fun _ => k))
  (at level 61, right associativity).

Definition emit (e : Event) (p : Process) : Process :=
  {| trace := trace p ++ [e]; exitCode := exitCode p |}.

Definition logAndQuit {A : Type} (f : Fatal) : M A := fun p => (Quit f, p).

Definition delay (timeoutMs : Z) : M unit :=
  fun p => (Ret tt, emit (Delay timeoutMs) p).

Definition console_log (message : string) : M unit :=
  fun p => (Ret tt, emit (Report message) p).

Definition set_exitCode (code : Z) : M unit :=
  fun p => (Ret tt, {| trace := trace p; exitCode := code |}).

Definition is_request (e : Event) : bool :=
  match e with Request _ => true | _ => false end.

(** Number of requests issued so far. *)
Definition issued (tr : list Event) : nat :=
  List.length (filter is_request tr).

(** [for (const x of xs) { body }]. *)
Fixpoint for_each {A : Type} (xs : list A) (body : A -> M unit) : M unit :=
  match xs with
  | [] => ret tt
  | x :: rest => body x ;; for_each rest body
  end.

(** [data ?? []]. *)
Definition or_empty {A : Type} (data : option (list A)) : list A :=
  match data with Some xs => xs | None => [] end.

Definition release_matches (option : CliOption) (release : RemoteRelease)
  : bool :=
  strict_eq (Some (release_tag_name release)) (opt_tag option)
  && strict_eq (release_name release) (opt_name option)
  && Bool.eqb (release_draft release) (opt_draft option).

Definition tag_matches (option : CliOption) (tag : RemoteTag) : bool :=
  strict_eq (Some (tag_name tag)) (opt_tag option).

(** The loop of [checkReleases]: the options for which [find] gives
    nothing, in order. *)
Definition notFoundReleases (existingReleases : list RemoteRelease)
  (options : list CliOption) : list CliOption :=
  filter (fun option =>
            negb (defined (find (release_matches option) existingReleases)))
         options.

(** The loop of [checkTags]. *)
Definition notFound (existingTags : list RemoteTag)
  (options : list CliOption) : list CliOption :=
  filter (fun option =>
            negb (defined (find (tag_matches option) existingTags)))
         options.

Definition format_release (option : CliOption) : string :=
  tab ++ "Name: " ++ show (opt_name option)
      ++ " Tag: " ++ show (opt_tag option)
      ++ " Draft: " ++ show_bool (opt_draft option).

Definition format_tag (option : CliOption) : string :=
  tab ++ "Tag: " ++ show (opt_tag option).

Definition releases_message (missing : list CliOption) : string :=
  "Some expected releases were not found:" ++ newline
    ++ join newline (map format_release missing).

Definition tags_message (missing : list CliOption) : string :=
  "Some expected tags were not found:" ++ newline
    ++ join newline (map format_tag missing).

Section Script.

Variable remote : Remote.

(** One request: it is recorded, then answered or rejected. *)
Definition request (call : Call) : M unit :=
  fun p =>
    if rejects remote (issued (trace p))
    then (Rejected, emit (Request call) p)
    else (Ret tt, emit (Request call) p).

Definition loadExistingReleases : M (list RemoteRelease) :=
  request ListReleases ;;
  ret (or_empty (releases_data remote)).

Definition loadExistingTags : M (list RemoteTag) :=
  request ListTags ;;
  ret (or_empty (tags_data remote)).

Definition deleteExistingReleases : M unit :=
  existingReleases <- loadExistingReleases ;;
  delay API_DELAY_MS ;;
  for_each existingReleases (fun release =>
    request (DeleteRelease (release_id release)) ;;
    delay API_DELAY_MS).

Definition deleteExistingTags : M unit :=
  existingTags <- loadExistingTags ;;
  delay API_DELAY_MS ;;
  for_each existingTags (fun tag =>
    request (DeleteRef ("tags/" ++ tag_name tag)) ;;
    delay API_DELAY_MS).

Definition createRelease (option : CliOption) : M unit :=
  request (CreateRelease (opt_tag option) (opt_name option)
                         (opt_draft option)).

Definition createTag (option : CliOption)
  (commitSha : Datatypes.option string)
  : M unit :=
  request (CreateRef ("refs/tags/" ++ show (opt_tag option)) commitSha).

Definition runCreate (options : list CliOption) : M unit :=
  deleteExistingReleases ;;
  deleteExistingTags ;;
  let hasTagOptions := existsb isTagOption options in
  tagCommitSha <-
    (if hasTagOptions
     then request (GetBranch "main") ;; ret (Some (main_sha remote))
     else ret None) ;;
  for_each options (fun option =>
    (if isReleaseOption option then createRelease option
     else if isTagOption option then createTag option tagCommitSha
     else logAndQuit (UnexpectedOption option)) ;;
    delay API_DELAY_MS).

Definition checkReleases (options : list CliOption) : M (option string) :=
  existingReleases <- loadExistingReleases ;;
  let missing := notFoundReleases existingReleases options in
  if (0 <? List.length missing)%nat
  then ret (Some (releases_message missing))
  else ret None.

Definition checkTags (options : list CliOption) : M (option string) :=
  existingTags <- loadExistingTags ;;
  let missing := notFound existingTags options in
  if (0 <? List.length missing)%nat
  then ret (Some (tags_message missing))
  else ret None.

(** One guarded check of [runChecks]: returns the new [hasError]. *)
Definition guarded_check (partition : list CliOption)
  (check : list CliOption -> M (option string)) (hasError : bool) : M bool :=
  if truthy_array partition
  then
    errorMessage <- check partition ;;
    if truthy errorMessage
    then console_log (show errorMessage) ;; ret true
    else ret hasError
  else ret hasError.

Definition runChecks (options : list CliOption) : M unit :=
  let tagOptions := filter isTagOption options in
  let releaseOptions := filter isReleaseOption options in
  hasError <- guarded_check tagOptions checkTags false ;;
  hasError <- guarded_check releaseOptions checkReleases hasError ;;
  if hasError : bool then set_exitCode 1 else ret tt.

Definition run (argv : list string) : M unit :=
  match processArguments argv with
  | Die f => logAndQuit f
  | Ok (command, options) =>
      if (List.length options =? 0)%nat then logAndQuit NoOptionsSupplied
      else if strict_eq command (Some "create") then runCreate options
      else if strict_eq command (Some "check") then runChecks options
      else ret tt
  end.

End Script.

(** The process before [run()] is called. *)
Definition start : Process := {| trace := []; exitCode := 0 |}.

(** How the process ends: with an exit status, or with the rejection of
    a request propagating out of [run()]. *)
Inductive Status : Type :=
| Exited (code : Z)
| Uncaught.

Definition status {A : Type} (r : Res A * Process) : Status :=
  match fst r with
  | Ret _ => Exited (exitCode (snd r))
  | Quit _ => Exited 1
  | Rejected => Uncaught
  end.

Definition events {A : Type} (r : Res A * Process) : list Event :=
  trace (snd r).

(** ** Path helpers *)

(** The helpers of [utils.js] build the paths of the requests from the
    repository named in the environment.  Their arguments are strings
    or left out ([None]); an argument left out of a template reads
    [undefined]. *)
Record ActionEnv : Type := mkActionEnv {
  INPUT_REPO : option string;
  GITHUB_REPOSITORY : option string
}.

(** [v ?? fallback]. *)
Definition nullish_or {A : Type} (v fallback : option A) : option A :=
  match v with
  | Some _ => v
  | None => fallback
  end.

(** A parameter [x = fallback]: the default is taken when the argument
    is left out. *)
Definition or_default {A : Type} (x fallback : option A) : option A :=
  match x with
  | Some _ => x
  | None => fallback
  end.

Definition getRepoFromProcess (env : ActionEnv) : option string :=
  nullish_or (INPUT_REPO env) (GITHUB_REPOSITORY env).

Definition createGetReleasesPath (env : ActionEnv)
  (fullyQualifiedRepo : option string) : string :=
  let fullyQualifiedRepo :=
    or_default fullyQualifiedRepo (getRepoFromProcess env) in
  "/repos/" ++ show fullyQualifiedRepo ++ "/releases".

Definition createDeleteReleasesPath (env : ActionEnv)
  (releaseId fullyQualifiedRepo : option string) : string :=
  let fullyQualifiedRepo :=
    or_default fullyQualifiedRepo (getRepoFromProcess env) in
  createGetReleasesPath env fullyQualifiedRepo ++ "/" ++ show releaseId.

Definition createDeleteTagPath (env : ActionEnv)
  (tagRef fullyQualifiedRepo : option string) : string :=
  let fullyQualifiedRepo :=
    or_default fullyQualifiedRepo (getRepoFromProcess env) in
  "/repos/" ++ show fullyQualifiedRepo ++ "/git/" ++ show tagRef.

Definition createTagRef (tagName : option string) : string :=
  "refs/tags/" ++ show tagName.

(** ** Vocabulary of the statements *)

(** *** Parts and options *)

Definition recognized (key : string) : bool :=
  (key =? "tag") || (key =? "rel") || (key =? "dft").

(** A part whose key is none of [tag], [rel] and [dft]. *)
Definition unrecognized (part : string) : bool :=
  negb (recognized (hd EmptyString (split_on ":" part))).

(** A part with a recognised key and an empty value, such as [tag:]. *)
Definition empty_valued (part : string) : bool :=
  match split_on ":" part with
  | key :: value :: _ => recognized key && (value =? "")
  | _ => false
  end.

(** What an empty-valued part parses to. *)
Definition blank (it : Part) : Prop :=
  it = PartTag (Some "") \/ it = PartName (Some "") \/ it = PartDraft false.

(** The values that the parts of one raw option give to a field. *)
Definition values {A : Type} (field : Part -> Datatypes.option A)
  (processedOptions : list Part) : list A :=
  flat_map (fun it => match field it with Some v => [v] | None => [] end)
           processedOptions.

Definition all_equal {A : Type} (eqb : A -> A -> bool) (vs : list A) : bool :=
  match vs with
  | [] => true
  | v :: rest => forallb (eqb v) rest
  end.

(** No field is given two different values. *)
Definition unambiguous (processedOptions : list Part) : bool :=
  all_equal String.eqb (values part_tag processedOptions)
  && all_equal String.eqb (values part_name processedOptions)
  && all_equal Bool.eqb (values part_draft processedOptions).

(** Any two parts that define a field give it the same value. *)
Definition agree {A : Type} (field : Part -> Datatypes.option A)
  (processedOptions : list Part) : Prop :=
  forall x y v v', In x processedOptions -> In y processedOptions ->
                   field x = Some v -> field y = Some v' -> v = v'.

(** *** Runs *)

(** [m] returns [a] after recording exactly [evs], whatever came
    before, and leaves the exit code alone. *)
Definition yields {A : Type} (m : M A) (a : A) (evs : list Event) : Prop :=
  forall p,
    m p = (Ret a, {| trace := trace p ++ evs; exitCode := exitCode p |}).

(** Whatever [m] records satisfies [Q], in every outcome. *)
Definition adds {A : Type} (Q : Event -> Prop) (m : M A) : Prop :=
  forall p, exists evs,
    trace (snd (m p)) = trace p ++ evs /\ Forall Q evs.

Definition never_quits {A : Type} (m : M A) : Prop :=
  forall p f, fst (m p) <> Quit f.

(** *** Traces *)

(** The requests of a trace, in order. *)
Definition calls (tr : list Event) : list Call :=
  flat_map (fun e => match e with Request call => [call] | _ => [] end) tr.

Definition is_get_branch (call : Call) : bool :=
  match call with GetBranch _ => true | _ => false end.

Definition is_create_ref (call : Call) : bool :=
  match call with CreateRef _ _ => true | _ => false end.

(** Number of times the tip of a branch was asked for. *)
Definition resolutions (tr : list Event) : nat :=
  List.length
    (filter (fun e => match e with
                      | Request call => is_get_branch call
                      | _ => false
                      end) tr).

(** Every request outside [exempt] is directly followed by the pacing
    delay. *)
Fixpoint paced (exempt : Call -> bool) (tr : list Event) : bool :=
  match tr with
  | [] => true
  | Request call :: rest =>
      (exempt call
       || match rest with
          | Delay timeoutMs :: _ => (timeoutMs =? API_DELAY_MS)%Z
          | _ => false
          end)
      && paced exempt rest
  | _ :: rest => paced exempt rest
  end.

(** Events that leave the repository as it is. *)
Definition read_only (e : Event) : Prop :=
  match e with
  | Request ListTags | Request ListReleases | Report _ => True
  | _ => False
  end.

(** *** Create runs *)

(** The events of the phases of a create run. *)
Definition delete_release_events (release : RemoteRelease) : list Event :=
  [Request (DeleteRelease (release_id release)); Delay API_DELAY_MS].

Definition delete_tag_events (tag : RemoteTag) : list Event :=
  [Request (DeleteRef ("tags/" ++ tag_name tag)); Delay API_DELAY_MS].

Definition anchor_events (options : list CliOption) : list Event :=
  if existsb isTagOption options then [Request (GetBranch "main")] else [].

Definition create_call (sha : Datatypes.option string) (option : CliOption)
  : Call :=
  if isReleaseOption option
  then CreateRelease (opt_tag option) (opt_name option) (opt_draft option)
  else CreateRef ("refs/tags/" ++ show (opt_tag option)) sha.

Definition create_events (sha : Datatypes.option string)
  (option : CliOption) : list Event :=
  [Request (create_call sha option); Delay API_DELAY_MS].

(** The trace of a create run that goes through. *)
Definition create_trace (remote : Remote) (options : list CliOption)
  : list Event :=
  [Request ListReleases; Delay API_DELAY_MS]
    ++ flat_map delete_release_events (or_empty (releases_data remote))
    ++ [Request ListTags; Delay API_DELAY_MS]
    ++ flat_map delete_tag_events (or_empty (tags_data remote))
    ++ anchor_events options
    ++ flat_map (create_events (Some (main_sha remote))) options.

(** *** Check runs *)

(** What a check run finds missing, and the events it records. *)
Definition missing_tags (remote : Remote) (options : list CliOption)
  : list CliOption :=
  notFound (or_empty (tags_data remote)) (filter isTagOption options).

Definition missing_releases (remote : Remote) (options : list CliOption)
  : list CliOption :=
  notFoundReleases (or_empty (releases_data remote))
                   (filter isReleaseOption options).

Definition tag_report (remote : Remote) (options : list CliOption)
  : list Event :=
  if (0 <? List.length (missing_tags remote options))%nat
  then [Report (tags_message (missing_tags remote options))]
  else [].

Definition release_report (remote : Remote) (options : list CliOption)
  : list Event :=
  if (0 <? List.length (missing_releases remote options))%nat
  then [Report (releases_message (missing_releases remote options))]
  else [].

Definition check_failed (remote : Remote) (options : list CliOption) : bool :=
  (0 <? List.length (missing_tags remote options))%nat
  || (0 <? List.length (missing_releases remote options))%nat.

(** *** The text of the reports *)

(** What a check run prints for the tags it misses: a heading, then one
    line per tag, a tab and the tag. *)
Definition missing_tags_text (missing : list CliOption) : string :=
  "Some expected tags were not found:"
    ++ String "010"
         (String.concat
            (String "010" EmptyString)
            (map (fun o =>
                    String "009"
                      ("Tag: " ++ match opt_tag o with
                                  | Some t => t
                                  | None => "undefined"
                                  end))
                 missing)).

(** What it prints for the releases it misses: a heading, then one line
    per release with its name, its tag and its draft flag. *)
Definition missing_releases_text (missing : list CliOption) : string :=
  "Some expected releases were not found:"
    ++ String "010"
         (String.concat
            (String "010" EmptyString)
            (map (fun o =>
                    String "009"
                      ("Name: " ++ match opt_name o with
                                   | Some n => n
                                   | None => "undefined"
                                   end
                       ++ " Tag: " ++ match opt_tag o with
                                      | Some t => t
                                      | None => "undefined"
                                      end
                       ++ " Draft: " ++ (if opt_draft o then "true"
                                         else "false")))
                 missing)).

(** *** Separators, aborted runs and waiting time *)

(** [s] holds the character [sep]. *)
Fixpoint contains (sep : ascii) (s : string) : bool :=
  match s with
  | EmptyString => false
  | String c rest => Ascii.eqb c sep || contains sep rest
  end.

(** The process after recording [evs]. *)
Definition extend (p : Process) (evs : list Event) : Process :=
  {| trace := trace p ++ evs; exitCode := exitCode p |}.

(** The requests of [evs], sent after [n] earlier ones, are all
    answered. *)
Definition answered_in (remote : Remote) (n : nat) (evs : list Event)
  : Prop :=
  forall j, (j < issued evs)%nat -> rejects remote (n + j) = false.

(** [m] either returns [a] after recording [evs], all of whose requests
    were answered, or is cut short by the first rejected request of
    [evs], having recorded [evs] up to that request. *)
Definition tracks {A : Type} (remote : Remote) (m : M A) (a : A)
  (evs : list Event) : Prop :=
  forall p,
    (m p = (Ret a, extend p evs)
     /\ answered_in remote (issued (trace p)) evs)
    \/ exists pre call post,
         evs = pre ++ Request call :: post
         /\ answered_in remote (issued (trace p)) pre
         /\ rejects remote (issued (trace p) + issued pre) = true
         /\ m p = (Rejected, extend p (pre ++ [Request call])).

(** The time a trace spends in delays, in milliseconds. *)
Fixpoint total_delay (tr : list Event) : Z :=
  match tr with
  | [] => 0
  | Delay timeoutMs :: rest => timeoutMs + total_delay rest
  | _ :: rest => total_delay rest
  end.

(** * Properties *)

(** ** The option model *)

Section MapResult.

Context {A B : Type} (f : A -> Result B).

Lemma map_result_ok_in (xs : list A) (ys : list B) :
  map_result f xs = Ok ys ->
  forall y, In y ys -> exists x, In x xs /\ f x = Ok y.
Proof.
  revert ys; induction xs as [|x rest IH]; simpl; intros ys H y Hy.
  - injection H as <-. contradiction.
  - destruct (f x) as [b|e] eqn:Hx; [|discriminate].
    destruct (map_result f rest) as [bs|e] eqn:Hrest; [|discriminate].
    injection H as <-. destruct Hy as [<-|Hy].
    + exists x; auto.
    + destruct (IH bs eq_refl y Hy) as (x' & Hin & Hfx). exists x'; auto.
Qed.

Lemma map_result_in_die (xs : list A) (x : A) (e : Fatal) :
  In x xs -> f x = Die e -> exists e', map_result f xs = Die e'.
Proof.
  induction xs as [|x0 rest IH]; simpl; intros Hin Hx; [contradiction|].
  destruct (f x0) as [b|e0] eqn:Hx0; [|eauto].
  destruct Hin as [->|Hin]; [congruence|].
  destruct (IH Hin Hx) as [e' ->]. eauto.
Qed.

Lemma map_result_die_in (xs : list A) (e : Fatal) :
  map_result f xs = Die e -> exists x, In x xs /\ f x = Die e.
Proof.
  induction xs as [|x rest IH]; simpl; intros H; [discriminate|].
  destruct (f x) as [b|e0] eqn:Hx.
  - destruct (map_result f rest) as [bs|e1] eqn:Hrest; [discriminate|].
    injection H as ->. destruct (IH eq_refl) as (x' & Hin & Hfx). eauto.
  - injection H as ->. eauto.
Qed.

Lemma map_result_all_ok (xs : list A) :
  (forall x, In x xs -> exists y, f x = Ok y) ->
  exists ys, map_result f xs = Ok ys.
Proof.
  induction xs as [|x rest IH]; simpl; intros H; [eauto|].
  destruct (H x (or_introl eq_refl)) as [y ->].
  destruct IH as [ys ->]; eauto.
Qed.

(** Mapping over a rearranged list succeeds as well, with the results
    rearranged the same way. *)
Lemma map_result_perm (xs xs' : list A) :
  Permutation xs xs' ->
  forall ys, map_result f xs = Ok ys ->
  exists ys', map_result f xs' = Ok ys' /\ Permutation ys ys'.
Proof.
  induction 1 as [|x l l' Hp IH|x y l|l l' l'' H1 IH1 H2 IH2];
    simpl; intros ys H.
  - injection H as <-. eauto.
  - destruct (f x) as [b|e]; [|discriminate].
    destruct (map_result f l) as [bs|e]; [|discriminate].
    injection H as <-. destruct (IH bs eq_refl) as (bs' & -> & Hbs).
    eauto using Permutation.
  - destruct (f y) as [b|e]; [|discriminate].
    destruct (f x) as [b'|e]; [|discriminate].
    destruct (map_result f l) as [bs|e]; [|discriminate].
    injection H as <-. eauto using Permutation.
  - destruct (IH1 ys H) as (ys1 & H1' & Hp1).
    destruct (IH2 ys1 H1') as (ys2 & H2' & Hp2).
    exists ys2; split; [assumption|]. eapply Permutation_trans; eassumption.
Qed.

End MapResult.

Lemma classified_exactly_once (o : CliOption) :
  unclassifiable o = false ->
  xorb (isTagOption o) (isReleaseOption o) = true.
Proof.
  unfold unclassifiable, isTagOption, isReleaseOption.
  destruct (truthy (opt_tag o)), (truthy (opt_name o)), (opt_draft o);
    simpl; congruence.
Qed.

Lemma processArguments_ok (argv : list string) (command : option string)
  (options : list CliOption) :
  processArguments argv = Ok (command, options) ->
  includes SUPPORTED_COMMANDS (nth_error argv 2) = true
  /\ command = nth_error argv 2
  /\ map_result processRawOption (skipn 3 argv) = Ok options
  /\ find unclassifiable options = None.
Proof.
  unfold processArguments. intros H. cbv zeta in H.
  destruct (includes SUPPORTED_COMMANDS (nth_error argv 2)); cbn [negb] in H;
    [|discriminate H].
  destruct (map_result processRawOption (skipn 3 argv)) as [os|e];
    [|discriminate H].
  destruct (find unclassifiable os) as [o|] eqn:Hfind; [discriminate H|].
  injection H as <- <-. auto.
Qed.

Lemma find_some_of_in {A : Type} (p : A -> bool) (xs : list A) (x : A) :
  In x xs -> p x = true -> exists y, find p xs = Some y /\ p y = true.
Proof.
  induction xs as [|x0 rest IH]; simpl; intros Hin Hp; [contradiction|].
  destruct (p x0) eqn:Hx0; [eauto|].
  destruct Hin as [->|Hin]; [congruence|auto].
Qed.

(** A run that quits while the arguments are processed has done
    nothing. *)
Lemma run_die (remote : Remote) (argv : list string) (f : Fatal) :
  processArguments argv = Die f -> run remote argv start = (Quit f, start).
Proof. intros H. unfold run. rewrite H. reflexivity. Qed.

Lemma unclassifiable_dies (argv : list string) (options : list CliOption)
  (o : CliOption) :
  includes SUPPORTED_COMMANDS (nth_error argv 2) = true ->
  map_result processRawOption (skipn 3 argv) = Ok options ->
  In o options -> unclassifiable o = true ->
  exists o', processArguments argv = Die (InvalidOption o')
             /\ unclassifiable o' = true.
Proof.
  intros Hcmd Hmap Hin Hbad. unfold processArguments. cbv zeta.
  rewrite Hcmd, Hmap. cbn [negb].
  destruct (find_some_of_in unclassifiable options o Hin Hbad)
    as (o' & -> & Ho'). eauto.
Qed.

Lemma processArguments_unsupported (argv : list string) :
  includes SUPPORTED_COMMANDS (nth_error argv 2) = false ->
  processArguments argv = Die (UnsupportedCommand (nth_error argv 2)).
Proof.
  intros H. unfold processArguments. cbv zeta. rewrite H. reflexivity.
Qed.

(** Whatever is wrong with the options, an argument vector holding an
    unclassifiable assembled option never gets past the arguments. *)
Lemma unclassifiable_quits (remote : Remote) (argv : list string)
  (options : list CliOption) (o : CliOption) :
  map_result processRawOption (skipn 3 argv) = Ok options ->
  In o options -> unclassifiable o = true ->
  exists f, run remote argv start = (Quit f, start).
Proof.
  intros Hmap Hin Hbad.
  destruct (includes SUPPORTED_COMMANDS (nth_error argv 2)) eqn:Hcmd.
  - destruct (unclassifiable_dies argv options o Hcmd Hmap Hin Hbad)
      as (o' & Hdie & _).
    eexists. apply run_die. eassumption.
  - eexists. apply run_die. apply processArguments_unsupported. assumption.
Qed.

(** C4: every option that gets through [processArguments] is a tag
    option or a release option and not both, where tag option means tag
    present, name absent and draft false, release option means name
    present, and present means a non-empty string; an assembled option
    that is neither makes the run quit with status 1 before any request;
    an option with both a name and a tag is a release option and not a
    tag option. *)
Theorem surviving_options_classified (remote : Remote)
  (argv : list string) (options : list CliOption)
  (Hassembled : map_result processRawOption (skipn 3 argv) = Ok options) :
  (forall o, isTagOption o = true <->
             truthy (opt_tag o) = true /\ truthy (opt_name o) = false
             /\ opt_draft o = false)
  /\ (forall o, isReleaseOption o = true <-> truthy (opt_name o) = true)
  /\ (forall command surviving,
        processArguments argv = Ok (command, surviving) ->
        surviving = options
        /\ forall o, In o options ->
                     xorb (isTagOption o) (isReleaseOption o) = true)
  /\ (forall o, In o options ->
        isTagOption o = false -> isReleaseOption o = false ->
        (exists f, run remote argv start = (Quit f, start))
        /\ status (run remote argv start) = Exited 1
        /\ events (run remote argv start) = [])
  /\ (forall o, truthy (opt_name o) = true -> truthy (opt_tag o) = true ->
        isReleaseOption o = true /\ isTagOption o = false).
Proof.
  assert (Hquit : forall o, In o options ->
            isTagOption o = false -> isReleaseOption o = false ->
            exists f, run remote argv start = (Quit f, start)).
  { intros o Hin Ht Hr.
    apply (unclassifiable_quits remote argv options o Hassembled Hin).
    unfold unclassifiable. rewrite Ht, Hr. reflexivity. }
  split; [|split; [|split; [|split]]].
  - intros o. unfold isTagOption.
    destruct (truthy (opt_tag o)), (truthy (opt_name o)), (opt_draft o);
      simpl; intuition congruence.
  - intros o. unfold isReleaseOption. tauto.
  - intros command surviving H.
    destruct (processArguments_ok _ _ _ H) as (_ & _ & Hmap & Hfind).
    assert (surviving = options) as -> by congruence.
    split; [reflexivity|]. intros o Hin.
    apply classified_exactly_once.
    destruct (unclassifiable o) eqn:Hbad; [|reflexivity].
    destruct (find_some_of_in _ _ _ Hin Hbad) as (y & Hy & _). congruence.
  - intros o Hin Ht Hr.
    destruct (Hquit o Hin Ht Hr) as [f Hf].
    split; [eauto|]. rewrite Hf. split; reflexivity.
  - intros o Hn Ht. unfold isTagOption, isReleaseOption.
    rewrite Hn, Ht. split; reflexivity.
Qed.

Lemma surviving_options_classified_witness :
  map_result processRawOption
    (skipn 3 ["node"; "script"; "create";
              "rel:Beta,tag:v1.2.0,dft:true"; "tag:v1.2.0-alpha"])
  = Ok [mkOption (Some "Beta") (Some "v1.2.0") true;
        mkOption None (Some "v1.2.0-alpha") false]
  /\ Forall (fun o => xorb (isTagOption o) (isReleaseOption o) = true)
        [mkOption (Some "Beta") (Some "v1.2.0") true;
         mkOption None (Some "v1.2.0-alpha") false].
Proof.
  split; [reflexivity|].
  destruct (surviving_options_classified
              (mkRemote None None "c0ffee" (fun _ => false))
              ["node"; "script"; "create";
               "rel:Beta,tag:v1.2.0,dft:true"; "tag:v1.2.0-alpha"]
              _ eq_refl) as (_ & _ & H & _).
  apply Forall_forall. exact (proj2 (H _ _ eq_refl)).
Defined.

(** *** Order of the parts *)

Lemma in_values {A : Type} (field : Part -> option A) (ps : list Part)
  (x : Part) (v : A) :
  In x ps -> field x = Some v -> In v (values field ps).
Proof.
  intros Hin Hx. unfold values. apply in_flat_map. exists x.
  split; [assumption|]. rewrite Hx. left; reflexivity.
Qed.

Lemma all_equal_agree {A : Type} (eqb : A -> A -> bool)
  (field : Part -> option A) (ps : list Part) :
  (forall a b, eqb a b = true -> a = b) ->
  all_equal eqb (values field ps) = true -> agree field ps.
Proof.
  intros Heqb Hall x y v v' Hx Hy Hfx Hfy.
  pose proof (in_values field ps x v Hx Hfx) as Hv.
  pose proof (in_values field ps y v' Hy Hfy) as Hv'.
  destruct (values field ps) as [|v0 rest]; [contradiction|].
  simpl in Hall. rewrite forallb_forall in Hall.
  assert (Hsame : forall w, In w (v0 :: rest) -> v0 = w).
  { intros w [<-|Hw]; [reflexivity|]. apply Heqb, Hall, Hw. }
  rewrite <- (Hsame v Hv), <- (Hsame v' Hv'). reflexivity.
Qed.

Lemma first_field_some {A : Type} (field : Part -> option A)
  (ps : list Part) (v : A) :
  first_field field ps = Some v -> exists x, In x ps /\ field x = Some v.
Proof.
  unfold first_field.
  destruct (find (fun it => defined (field it)) ps) as [it|] eqn:Hfind;
    [|discriminate].
  intros Hv. exists it. split; [|assumption].
  apply (find_some _ _ Hfind).
Qed.

Lemma first_field_none {A : Type} (field : Part -> option A)
  (ps : list Part) :
  first_field field ps = None -> forall x, In x ps -> field x = None.
Proof.
  unfold first_field.
  destruct (find (fun it => defined (field it)) ps) as [it|] eqn:Hfind.
  - intros Hnone. destruct (find_some _ _ Hfind) as [_ Hdef].
    rewrite Hnone in Hdef. discriminate.
  - intros _ x Hin. pose proof (find_none _ _ Hfind x Hin) as Hdef.
    simpl in Hdef. destruct (field x); [discriminate|reflexivity].
Qed.

Lemma first_field_perm {A : Type} (field : Part -> option A)
  (ps ps' : list Part) :
  agree field ps -> Permutation ps ps' ->
  first_field field ps' = first_field field ps.
Proof.
  intros Hagree Hperm.
  destruct (first_field field ps) as [v|] eqn:E;
    destruct (first_field field ps') as [v'|] eqn:E'; try reflexivity.
  - destruct (first_field_some _ _ _ E) as (x & Hx & Hfx).
    destruct (first_field_some _ _ _ E') as (y & Hy & Hfy).
    apply (Permutation_in _ (Permutation_sym Hperm)) in Hy.
    f_equal. exact (Hagree y x v' v Hy Hx Hfy Hfx).
  - destruct (first_field_some _ _ _ E) as (x & Hx & Hfx).
    apply (Permutation_in _ Hperm) in Hx.
    rewrite (first_field_none _ _ E' x Hx) in Hfx. discriminate.
  - destruct (first_field_some _ _ _ E') as (y & Hy & Hfy).
    apply (Permutation_in _ (Permutation_sym Hperm)) in Hy.
    rewrite (first_field_none _ _ E y Hy) in Hfy. discriminate.
Qed.

Lemma assemble_perm (ps ps' : list Part) :
  unambiguous ps = true -> Permutation ps ps' -> assemble ps' = assemble ps.
Proof.
  unfold unambiguous. intros H Hperm.
  apply andb_true_iff in H as [H Hd]. apply andb_true_iff in H as [Ht Hn].
  unfold assemble.
  pose proof (all_equal_agree String.eqb part_tag ps
                (fun a b => proj1 (String.eqb_eq a b)) Ht) as Atag.
  pose proof (all_equal_agree String.eqb part_name ps
                (fun a b => proj1 (String.eqb_eq a b)) Hn) as Aname.
  pose proof (all_equal_agree Bool.eqb part_draft ps Bool.eqb_prop Hd)
    as Adraft.
  rewrite (first_field_perm part_tag ps ps' Atag Hperm).
  rewrite (first_field_perm part_name ps ps' Aname Hperm).
  rewrite (first_field_perm part_draft ps ps' Adraft Hperm).
  reflexivity.
Qed.

Lemma first_field_at {A : Type} (field : Part -> option A)
  (before after : list Part) (it : Part) (v : A) :
  field it = Some v ->
  (forall x, In x before -> field x = None) ->
  first_field field (before ++ it :: after) = Some v.
Proof.
  intros Hit Hbefore. unfold first_field.
  induction before as [|x rest IH]; simpl.
  - rewrite Hit. simpl. exact Hit.
  - rewrite (Hbefore x (or_introl eq_refl)). simpl.
    apply IH. intros y Hy. apply Hbefore. right; exact Hy.
Qed.

Lemma first_field_absent {A : Type} (field : Part -> option A)
  (ps : list Part) :
  (forall x, In x ps -> field x = None) -> first_field field ps = None.
Proof.
  intros Hnone.
  destruct (first_field field ps) as [v|] eqn:E; [|reflexivity].
  destruct (first_field_some _ _ _ E) as (x & Hx & Hfx).
  rewrite (Hnone x Hx) in Hfx. discriminate.
Qed.

Lemma no_tag_value (ps : list Part) :
  (forall w, ~ In (PartTag (Some w)) ps) ->
  forall x, In x ps -> part_tag x = None.
Proof.
  intros Hno x Hx. destruct x as [[w|]| |]; try reflexivity.
  contradiction (Hno w Hx).
Qed.

Lemma no_name_value (ps : list Part) :
  (forall w, ~ In (PartName (Some w)) ps) ->
  forall x, In x ps -> part_name x = None.
Proof.
  intros Hno x Hx. destruct x as [|[w|]|]; try reflexivity.
  contradiction (Hno w Hx).
Qed.

Lemma no_draft_value (ps : list Part) :
  (forall b, ~ In (PartDraft b) ps) ->
  forall x, In x ps -> part_draft x = None.
Proof.
  intros Hno x Hx. destruct x as [| |b]; try reflexivity.
  contradiction (Hno b Hx).
Qed.

(** C6, as the script has it: whatever the parts of a raw option are,
    the option holds for each field the value of the first part that
    gives it one, no value when no part does, and a draft flag of false
    when no part is a draft part; and as long as no field is given two
    different values by the parts, every rearrangement of the parts
    assembles the same option. *)
Theorem unambiguous_parts_commute (rawOption : string)
  (processedOptions : list Part)
  (Hparts : map_result processOptionPart (split_on "," rawOption)
            = Ok processedOptions) :
  exists o,
    processRawOption rawOption = Ok o
    /\ (forall before after v,
          processedOptions = before ++ PartTag (Some v) :: after ->
          (forall w, ~ In (PartTag (Some w)) before) ->
          opt_tag o = Some v)
    /\ ((forall w, ~ In (PartTag (Some w)) processedOptions) ->
        opt_tag o = None)
    /\ (forall before after v,
          processedOptions = before ++ PartName (Some v) :: after ->
          (forall w, ~ In (PartName (Some w)) before) ->
          opt_name o = Some v)
    /\ ((forall w, ~ In (PartName (Some w)) processedOptions) ->
        opt_name o = None)
    /\ (forall before after b,
          processedOptions = before ++ PartDraft b :: after ->
          (forall b', ~ In (PartDraft b') before) ->
          opt_draft o = b)
    /\ ((forall b, ~ In (PartDraft b) processedOptions) ->
        opt_draft o = false)
    /\ (unambiguous processedOptions = true ->
        forall permuted,
          Permutation (split_on "," rawOption) (split_on "," permuted) ->
          processRawOption permuted = Ok o).
Proof.
  exists (assemble processedOptions).
  split; [unfold processRawOption; rewrite Hparts; reflexivity|].
  unfold assemble. cbn [opt_tag opt_name opt_draft].
  split; [|split; [|split; [|split; [|split; [|split]]]]].
  - intros before after v -> Hbefore.
    apply first_field_at; [reflexivity|apply no_tag_value, Hbefore].
  - intros Hnone. apply first_field_absent, no_tag_value, Hnone.
  - intros before after v -> Hbefore.
    apply first_field_at; [reflexivity|apply no_name_value, Hbefore].
  - intros Hnone. apply first_field_absent, no_name_value, Hnone.
  - intros before after b -> Hbefore.
    rewrite (first_field_at part_draft before after (PartDraft b) b);
      [reflexivity|reflexivity|apply no_draft_value, Hbefore].
  - intros Hnone.
    rewrite (first_field_absent part_draft processedOptions);
      [reflexivity|apply no_draft_value, Hnone].
  - intros Hunambiguous permuted Hperm. unfold processRawOption.
    destruct (map_result_perm processOptionPart _ _ Hperm _ Hparts)
      as (ps' & -> & Hps).
    f_equal. apply assemble_perm; assumption.
Qed.

Lemma unambiguous_parts_commute_witness :
  (exists o, processRawOption "tag:a,rel:r,tag:b" = Ok o
             /\ opt_tag o = Some "a")
  /\ processRawOption "dft:true,rel:v1"
     = Ok {| opt_name := Some "v1"; opt_tag := None; opt_draft := true |}.
Proof.
  split.
  - destruct (unambiguous_parts_commute
                "tag:a,rel:r,tag:b"
                [PartTag (Some "a"); PartName (Some "r"); PartTag (Some "b")]
                eq_refl) as (o & Ho & Hfirst & _).
    exists o. split; [exact Ho|].
    apply (Hfirst [] [PartName (Some "r"); PartTag (Some "b")] "a" eq_refl).
    intros w [].
  - destruct (unambiguous_parts_commute
                "rel:v1,dft:true" [PartName (Some "v1"); PartDraft true]
                eq_refl) as (o & Ho & _ & _ & _ & _ & _ & _ & Hperm).
    rewrite (Hperm eq_refl "dft:true,rel:v1" (perm_swap _ _ [])).
    rewrite <- Ho. reflexivity.
Defined.

(** C6 as stated fails: with a repeated key the first part wins, so the
    order of the parts shows in the option. *)
Lemma repeated_key_order_matters :
  Permutation (split_on "," "tag:a,tag:b") (split_on "," "tag:b,tag:a")
  /\ processRawOption "tag:a,tag:b"
     = Ok {| opt_name := None; opt_tag := Some "a"; opt_draft := false |}
  /\ processRawOption "tag:b,tag:a"
     = Ok {| opt_name := None; opt_tag := Some "b"; opt_draft := false |}
  /\ processRawOption "tag:a,tag:b" <> processRawOption "tag:b,tag:a".
Proof.
  split; [apply perm_swap|].
  split; [reflexivity|]. split; [reflexivity|]. discriminate.
Qed.

(** *** Empty values *)

Lemma empty_valued_part (part : string) :
  empty_valued part = true ->
  exists it, processOptionPart part = Ok it /\ blank it.
Proof.
  unfold empty_valued, processOptionPart, recognized, blank.
  destruct (split_on ":" part) as [|key [|value rest]]; try discriminate.
  cbn [hd nth_error]. intros H.
  apply andb_true_iff in H as [Hkey Hvalue].
  apply String.eqb_eq in Hvalue as ->.
  destruct (key =? "tag"); [eauto|].
  destruct (key =? "rel"); [eauto|].
  destruct (key =? "dft"); [eauto|discriminate].
Qed.

Lemma empty_valued_parts (parts : list string) :
  forallb empty_valued parts = true ->
  exists ps, map_result processOptionPart parts = Ok ps /\ Forall blank ps.
Proof.
  induction parts as [|part rest IH]; simpl; intros H; [eauto|].
  apply andb_true_iff in H as [Hpart Hrest].
  destruct (empty_valued_part part Hpart) as (it & -> & Hit).
  destruct (IH Hrest) as (ps & -> & Hps). eauto.
Qed.

Lemma blank_not_truthy (field : Part -> option string) (ps : list Part) :
  (forall it v, blank it -> field it = Some v -> v = "") ->
  Forall blank ps -> truthy (first_field field ps) = false.
Proof.
  intros Hfield Hps.
  destruct (first_field field ps) as [v|] eqn:E; [|reflexivity].
  destruct (first_field_some _ _ _ E) as (x & Hx & Hfx).
  rewrite Forall_forall in Hps.
  rewrite (Hfield x v (Hps x Hx) Hfx). reflexivity.
Qed.

Lemma blank_unclassifiable (ps : list Part) :
  Forall blank ps ->
  isTagOption (assemble ps) = false /\ isReleaseOption (assemble ps) = false.
Proof.
  intros Hps. unfold isTagOption, isReleaseOption, assemble.
  cbn [opt_tag opt_name opt_draft].
  rewrite (blank_not_truthy part_tag ps), (blank_not_truthy part_name ps);
    auto.
  - intros it v [-> | [-> | ->]] H; simpl in H; congruence.
  - intros it v [-> | [-> | ->]] H; simpl in H; congruence.
Qed.

Lemma map_result_ok_image {A B : Type} (f : A -> Result B) (xs : list A)
  (ys : list B) (x : A) (y : B) :
  map_result f xs = Ok ys -> In x xs -> f x = Ok y -> In y ys.
Proof.
  revert ys; induction xs as [|x0 rest IH]; simpl; intros ys H Hin Hx;
    [contradiction|].
  destruct (f x0) as [b|e] eqn:Hx0; [|discriminate].
  destruct (map_result f rest) as [bs|e]; [|discriminate].
  injection H as <-. destruct Hin as [->|Hin].
  - left; congruence.
  - right; eauto.
Qed.

(** C10: [tag:] and [rel:] set their field to the empty string, which
    the two predicates do not tell from an absent field; an option whose
    parts all have an empty value is neither a tag option nor a release
    option, and a run given one ends with status 1 before any request,
    on the unclassifiable-option error whenever the raw options all
    parse. *)
Theorem empty_valued_option_rejected (remote : Remote)
  (argv : list string) (rawOption : string)
  (Hcommand : includes SUPPORTED_COMMANDS (nth_error argv 2) = true)
  (Hraw : In rawOption (skipn 3 argv))
  (Hempty : forallb empty_valued (split_on "," rawOption) = true) :
  processOptionPart "tag:" = Ok (PartTag (Some ""))
  /\ processOptionPart "rel:" = Ok (PartName (Some ""))
  /\ (forall n t d,
        isTagOption (mkOption n (Some "") d) = isTagOption (mkOption n None d)
        /\ isTagOption (mkOption (Some "") t d)
           = isTagOption (mkOption None t d)
        /\ isReleaseOption (mkOption (Some "") t d)
           = isReleaseOption (mkOption None t d))
  /\ (exists o, processRawOption rawOption = Ok o
                /\ isTagOption o = false /\ isReleaseOption o = false)
  /\ status (run remote argv start) = Exited 1
  /\ events (run remote argv start) = []
  /\ (forall options,
        map_result processRawOption (skipn 3 argv) = Ok options ->
        exists o', run remote argv start = (Quit (InvalidOption o'), start)
                   /\ unclassifiable o' = true).
Proof.
  destruct (empty_valued_parts _ Hempty) as (ps & Hps & Hblank).
  destruct (blank_unclassifiable ps Hblank) as [Htag Hrel].
  assert (Hraw_ok : processRawOption rawOption = Ok (assemble ps)).
  { unfold processRawOption. rewrite Hps. reflexivity. }
  assert (Hinvalid : forall options,
            map_result processRawOption (skipn 3 argv) = Ok options ->
            exists o', run remote argv start = (Quit (InvalidOption o'), start)
                       /\ unclassifiable o' = true).
  { intros options Hmap.
    pose proof (map_result_ok_image _ _ _ _ _ Hmap Hraw Hraw_ok) as Hin.
    destruct (unclassifiable_dies argv options (assemble ps) Hcommand Hmap Hin)
      as (o' & Hdie & Ho').
    - unfold unclassifiable. rewrite Htag, Hrel. reflexivity.
    - exists o'. split; [apply run_die; assumption|assumption]. }
  assert (Hquit : exists f, run remote argv start = (Quit f, start)).
  { destruct (map_result processRawOption (skipn 3 argv)) as [options|e]
      eqn:Hmap.
    - destruct (Hinvalid options eq_refl) as (o' & Hrun & _). eauto.
    - exists e. apply run_die. unfold processArguments. cbv zeta.
      rewrite Hcommand, Hmap. reflexivity. }
  split; [reflexivity|]. split; [reflexivity|].
  split; [intros n t d; repeat split; reflexivity|].
  split; [eauto|].
  destruct Hquit as [f Hf].
  split; [rewrite Hf; reflexivity|].
  split; [rewrite Hf; reflexivity|]. assumption.
Qed.

Lemma empty_valued_option_rejected_witness :
  status (run (mkRemote None None "c0ffee" (fun _ => false))
              ["node"; "script"; "check"; "tag:v1"; "tag:,rel:,dft:"] start)
  = Exited 1
  /\ events (run (mkRemote None None "c0ffee" (fun _ => false))
                 ["node"; "script"; "check"; "tag:v1"; "tag:,rel:,dft:"]
                 start)
     = [].
Proof.
  destruct (empty_valued_option_rejected
              (mkRemote None None "c0ffee" (fun _ => false))
              ["node"; "script"; "check"; "tag:v1"; "tag:,rel:,dft:"]
              "tag:,rel:,dft:" eq_refl (or_intror (or_introl eq_refl))
              eq_refl) as (_ & _ & _ & _ & Hstatus & Hevents & _).
  split; assumption.
Defined.

(** ** Runs *)

Section RunLemmas.

Context {A B : Type}.

Lemma yields_ret (a : A) : yields (ret a) a [].
Proof.
  intros [tr code]. unfold ret. simpl. rewrite app_nil_r. reflexivity.
Qed.

Lemma yields_bind (m : M A) (k : A -> M B) (a : A) (b : B)
  (evs evs' : list Event) :
  yields m a evs -> yields (k a) b evs' -> yields (bind m k) b (evs ++ evs').
Proof.
  intros Hm Hk p. unfold bind. rewrite Hm, Hk. simpl.
  rewrite app_assoc. reflexivity.
Qed.

Lemma yields_bind_eq (m : M A) (k : A -> M B) (a : A) (b : B)
  (evs evs' all : list Event) :
  yields m a evs -> yields (k a) b evs' -> all = evs ++ evs' ->
  yields (bind m k) b all.
Proof. intros Hm Hk ->. eapply yields_bind; eassumption. Qed.

Lemma adds_ret (Q : Event -> Prop) (a : A) : adds Q (ret a).
Proof. intros p. exists []. simpl. rewrite app_nil_r. auto. Qed.

Lemma adds_quit (Q : Event -> Prop) (f : Fatal) : adds Q (@logAndQuit A f).
Proof. intros p. exists []. simpl. rewrite app_nil_r. auto. Qed.

Lemma adds_bind (Q : Event -> Prop) (m : M A) (k : A -> M B) :
  adds Q m -> (forall a, adds Q (k a)) -> adds Q (bind m k).
Proof.
  intros Hm Hk p. unfold bind. destruct (Hm p) as (evs & Htr & Hq).
  destruct (m p) as [[a|f|] p']; simpl in Htr; eauto.
  destruct (Hk a p') as (evs' & Htr' & Hq').
  exists (evs ++ evs'). rewrite Htr', Htr, app_assoc.
  split; [reflexivity|]. apply Forall_app; auto.
Qed.

(** The continuation only matters at the values [m] can return. *)
Lemma adds_bind_returned (Q : Event -> Prop) (m : M A) (k : A -> M B) :
  adds Q m ->
  (forall a, (exists p, fst (m p) = Ret a) -> adds Q (k a)) ->
  adds Q (bind m k).
Proof.
  intros Hm Hk p. unfold bind. destruct (Hm p) as (evs & Htr & Hq).
  destruct (m p) as [[a|f|] p'] eqn:Hmp; simpl in Htr; eauto.
  destruct (Hk a (ex_intro _ p (f_equal fst Hmp)) p') as (evs' & Htr' & Hq').
  exists (evs ++ evs'). rewrite Htr', Htr, app_assoc.
  split; [reflexivity|]. apply Forall_app; auto.
Qed.

Lemma never_quits_ret (a : A) : never_quits (ret a).
Proof. intros p f. discriminate. Qed.

Lemma never_quits_bind (m : M A) (k : A -> M B) :
  never_quits m -> (forall a, never_quits (k a)) -> never_quits (bind m k).
Proof.
  intros Hm Hk p f. unfold bind. specialize (Hm p).
  destruct (m p) as [[a|f'|] p']; simpl in *.
  - apply Hk.
  - exfalso. apply (Hm f'). reflexivity.
  - discriminate.
Qed.

End RunLemmas.

Lemma yields_delay (timeoutMs : Z) :
  yields (delay timeoutMs) tt [Delay timeoutMs].
Proof. intros p. reflexivity. Qed.

Lemma yields_console_log (message : string) :
  yields (console_log message) tt [Report message].
Proof. intros p. reflexivity. Qed.

Lemma yields_for_each {A : Type} (xs : list A) (body : A -> M unit)
  (evs : A -> list Event) :
  (forall x, In x xs -> yields (body x) tt (evs x)) ->
  yields (for_each xs body) tt (flat_map evs xs).
Proof.
  induction xs as [|x rest IH]; intros H; simpl.
  - apply yields_ret.
  - apply yields_bind with (a := tt); [apply H; left; reflexivity|].
    apply IH. intros y Hy. apply H. right; assumption.
Qed.

Lemma adds_one {A : Type} (Q : Event -> Prop) (m : M A) (e : Event) :
  Q e -> (forall p, snd (m p) = emit e p) -> adds Q m.
Proof.
  intros Hq Hm p. exists [e]. rewrite Hm. simpl. auto.
Qed.

Lemma adds_delay (Q : Event -> Prop) (timeoutMs : Z) :
  Q (Delay timeoutMs) -> adds Q (delay timeoutMs).
Proof. intros Hq. apply (adds_one Q _ _ Hq). reflexivity. Qed.

Lemma adds_console_log (Q : Event -> Prop) (message : string) :
  Q (Report message) -> adds Q (console_log message).
Proof. intros Hq. apply (adds_one Q _ _ Hq). reflexivity. Qed.

Lemma adds_set_exitCode (Q : Event -> Prop) (code : Z) :
  adds Q (set_exitCode code).
Proof. intros p. exists []. simpl. rewrite app_nil_r. auto. Qed.

Lemma adds_for_each {A : Type} (Q : Event -> Prop) (xs : list A)
  (body : A -> M unit) :
  (forall x, In x xs -> adds Q (body x)) -> adds Q (for_each xs body).
Proof.
  induction xs as [|x rest IH]; intros H; simpl.
  - apply adds_ret.
  - apply adds_bind; [apply H; left; reflexivity|].
    intros _. apply IH. intros y Hy. apply H. right; assumption.
Qed.

Lemma never_quits_delay (timeoutMs : Z) : never_quits (delay timeoutMs).
Proof. intros p f. discriminate. Qed.

Lemma never_quits_console_log (message : string) :
  never_quits (console_log message).
Proof. intros p f. discriminate. Qed.

Lemma never_quits_set_exitCode (code : Z) : never_quits (set_exitCode code).
Proof. intros p f. discriminate. Qed.

Lemma never_quits_for_each {A : Type} (xs : list A) (body : A -> M unit) :
  (forall x, In x xs -> never_quits (body x)) ->
  never_quits (for_each xs body).
Proof.
  induction xs as [|x rest IH]; intros H; simpl.
  - apply never_quits_ret.
  - apply never_quits_bind; [apply H; left; reflexivity|].
    intros _. apply IH. intros y Hy. apply H. right; assumption.
Qed.

Section Requests.

Variable remote : Remote.

Lemma adds_request (Q : Event -> Prop) (call : Call) :
  Q (Request call) -> adds Q (request remote call).
Proof.
  intros Hq. apply (adds_one Q _ _ Hq). intros p. unfold request.
  destruct (rejects remote (issued (trace p))); reflexivity.
Qed.

Lemma never_quits_request (call : Call) : never_quits (request remote call).
Proof.
  intros p f. unfold request.
  destruct (rejects remote (issued (trace p))); discriminate.
Qed.

Hypothesis answered : forall n, rejects remote n = false.

Lemma yields_request (call : Call) :
  yields (request remote call) tt [Request call].
Proof. intros p. unfold request. rewrite answered. reflexivity. Qed.

Lemma yields_loadExistingReleases :
  yields (loadExistingReleases remote) (or_empty (releases_data remote))
         [Request ListReleases].
Proof.
  unfold loadExistingReleases.
  eapply yields_bind_eq;
    [apply yields_request|apply yields_ret|reflexivity].
Qed.

Lemma yields_loadExistingTags :
  yields (loadExistingTags remote) (or_empty (tags_data remote))
         [Request ListTags].
Proof.
  unfold loadExistingTags.
  eapply yields_bind_eq;
    [apply yields_request|apply yields_ret|reflexivity].
Qed.

Lemma yields_paced_request (call : Call) :
  yields (request remote call ;; delay API_DELAY_MS) tt
         [Request call; Delay API_DELAY_MS].
Proof.
  eapply yields_bind_eq;
    [apply yields_request|apply yields_delay|reflexivity].
Qed.

Lemma yields_deleteExistingReleases :
  yields (deleteExistingReleases remote) tt
    ([Request ListReleases; Delay API_DELAY_MS]
       ++ flat_map delete_release_events (or_empty (releases_data remote))).
Proof.
  unfold deleteExistingReleases.
  eapply yields_bind_eq; [apply yields_loadExistingReleases| |reflexivity].
  eapply yields_bind_eq; [apply yields_delay| |reflexivity].
  apply yields_for_each. intros release _. apply yields_paced_request.
Qed.

Lemma yields_deleteExistingTags :
  yields (deleteExistingTags remote) tt
    ([Request ListTags; Delay API_DELAY_MS]
       ++ flat_map delete_tag_events (or_empty (tags_data remote))).
Proof.
  unfold deleteExistingTags.
  eapply yields_bind_eq; [apply yields_loadExistingTags| |reflexivity].
  eapply yields_bind_eq; [apply yields_delay| |reflexivity].
  apply yields_for_each. intros tag _. apply yields_paced_request.
Qed.

Lemma release_create_call (sha sha' : option string) (o : CliOption) :
  isReleaseOption o = true -> create_call sha o = create_call sha' o.
Proof. intros H. unfold create_call. rewrite H. reflexivity. Qed.

Lemma yields_create (sha : option string) (o : CliOption) :
  unclassifiable o = false ->
  yields ((if isReleaseOption o then createRelease remote o
           else if isTagOption o then createTag remote o sha
           else logAndQuit (UnexpectedOption o)) ;; delay API_DELAY_MS)
         tt (create_events sha o).
Proof.
  unfold unclassifiable, create_events, create_call. intros Hvalid.
  destruct (isReleaseOption o); [apply yields_paced_request|].
  destruct (isTagOption o); [apply yields_paced_request|discriminate].
Qed.

Lemma flat_map_agree {A B : Type} (f g : A -> list B) (xs : list A) :
  (forall x, In x xs -> f x = g x) -> flat_map f xs = flat_map g xs.
Proof.
  induction xs as [|x rest IH]; simpl; intros H; [reflexivity|].
  rewrite (H x (or_introl eq_refl)), IH; auto.
Qed.

Lemma existsb_false_in {A : Type} (p : A -> bool) (xs : list A) (x : A) :
  existsb p xs = false -> In x xs -> p x = false.
Proof.
  intros Hnone Hin. destruct (p x) eqn:Hp; [|reflexivity].
  rewrite <- Hnone. symmetry. apply existsb_exists. eauto.
Qed.

(** A create run in which every request is answered, on classified
    options. *)
Lemma yields_runCreate (options : list CliOption) :
  existsb unclassifiable options = false ->
  yields (runCreate remote options) tt
    ([Request ListReleases; Delay API_DELAY_MS]
       ++ flat_map delete_release_events (or_empty (releases_data remote))
       ++ [Request ListTags; Delay API_DELAY_MS]
       ++ flat_map delete_tag_events (or_empty (tags_data remote))
       ++ anchor_events options
       ++ flat_map (create_events (Some (main_sha remote))) options).
Proof.
  intros Hvalid. unfold runCreate, anchor_events.
  eapply yields_bind_eq;
    [apply yields_deleteExistingReleases| |rewrite <- app_assoc; reflexivity].
  eapply yields_bind_eq;
    [apply yields_deleteExistingTags| |rewrite <- app_assoc; reflexivity].
  destruct (existsb isTagOption options) eqn:Htags.
  - eapply yields_bind_eq; [| |reflexivity].
    + eapply yields_bind_eq;
        [apply yields_request|apply yields_ret|reflexivity].
    + apply yields_for_each. intros o Ho. apply yields_create.
      apply (existsb_false_in _ _ _ Hvalid Ho).
  - eapply yields_bind_eq; [apply yields_ret| |reflexivity].
    rewrite (flat_map_agree (create_events (Some (main_sha remote)))
                            (create_events None)).
    + apply yields_for_each. intros o Ho. apply yields_create.
      apply (existsb_false_in _ _ _ Hvalid Ho).
    + intros o Ho. unfold create_events. f_equal. f_equal.
      apply release_create_call.
      pose proof (existsb_false_in _ _ _ Hvalid Ho) as Hu.
      pose proof (existsb_false_in _ _ _ Htags Ho) as Ht.
      unfold unclassifiable in Hu. rewrite Ht in Hu.
      destruct (isReleaseOption o); [reflexivity|discriminate].
Qed.

End Requests.

Section AnyRemote.

Variable remote : Remote.

Lemma never_quits_runCreate (options : list CliOption) :
  existsb unclassifiable options = false ->
  never_quits (runCreate remote options).
Proof.
  intros Hvalid. unfold runCreate, deleteExistingReleases,
    deleteExistingTags, loadExistingReleases, loadExistingTags.
  apply never_quits_bind; [|intros _; apply never_quits_bind; [|intros _]].
  1, 2: repeat first
    [ apply never_quits_bind; [|intros ?]
    | apply never_quits_request
    | apply never_quits_delay
    | apply never_quits_ret
    | apply never_quits_for_each; intros ? ? ].
  apply never_quits_bind.
  - destruct (existsb isTagOption options); [|apply never_quits_ret].
    apply never_quits_bind; [apply never_quits_request|].
    intros _. apply never_quits_ret.
  - intros tagCommitSha. apply never_quits_for_each. intros o Ho.
    apply never_quits_bind; [|intros _; apply never_quits_delay].
    pose proof (existsb_false_in _ _ _ Hvalid Ho) as Hu.
    unfold unclassifiable in Hu. unfold createRelease, createTag.
    destruct (isReleaseOption o); [apply never_quits_request|].
    destruct (isTagOption o); [apply never_quits_request|discriminate].
Qed.

Lemma adds_runCreate (Q : Event -> Prop) (options : list CliOption) :
  (forall timeoutMs, Q (Delay timeoutMs)) ->
  (forall call, is_create_ref call = false -> is_get_branch call = false ->
                Q (Request call)) ->
  (existsb isTagOption options = true ->
   Q (Request (GetBranch "main"))
   /\ forall ref, Q (Request (CreateRef ref (Some (main_sha remote))))) ->
  adds Q (runCreate remote options).
Proof.
  intros Hdelay Hplain Hanchor. unfold runCreate, deleteExistingReleases,
    deleteExistingTags, loadExistingReleases, loadExistingTags.
  apply adds_bind; [|intros _; apply adds_bind; [|intros _]].
  1, 2: repeat first
    [ apply adds_bind; [|intros ?]
    | apply adds_request; apply Hplain; reflexivity
    | apply adds_delay; apply Hdelay
    | apply adds_ret
    | apply adds_for_each; intros ? ? ].
  apply adds_bind_returned.
  - destruct (existsb isTagOption options).
    + apply adds_bind; [|intros ?; apply adds_ret].
      apply adds_request. apply Hanchor. reflexivity.
    + apply adds_ret.
  - intros tagCommitSha [p Hp]. apply adds_for_each. intros o Ho.
    apply adds_bind; [|intros _; apply adds_delay; apply Hdelay].
    unfold createRelease, createTag.
    destruct (isReleaseOption o);
      [apply adds_request; apply Hplain; reflexivity|].
    destruct (isTagOption o) eqn:Htag; [|apply adds_quit].
    assert (Hsome : existsb isTagOption options = true)
      by (apply existsb_exists; eauto).
    rewrite Hsome in Hp. unfold bind, request, ret in Hp.
    destruct (rejects remote (issued (trace p))); simpl in Hp;
      [discriminate|].
    injection Hp as <-. apply adds_request. apply Hanchor. assumption.
Qed.

End AnyRemote.

Section CheckRuns.

Variable remote : Remote.

Lemma never_quits_runChecks (options : list CliOption) :
  never_quits (runChecks remote options).
Proof.
  unfold runChecks, guarded_check, truthy_array, checkTags, checkReleases,
    loadExistingTags, loadExistingReleases.
  repeat first
    [ apply never_quits_bind; [|intros ?]
    | apply never_quits_request
    | apply never_quits_console_log
    | apply never_quits_set_exitCode
    | apply never_quits_ret
    | match goal with
      | |- never_quits (if ?b then _ else _) => destruct b
      end ].
Qed.

Lemma adds_runChecks (Q : Event -> Prop) (options : list CliOption) :
  Q (Request ListTags) -> Q (Request ListReleases) ->
  (forall message, Q (Report message)) ->
  adds Q (runChecks remote options).
Proof.
  intros Htags Hreleases Hreport.
  unfold runChecks, guarded_check, truthy_array, checkTags, checkReleases,
    loadExistingTags, loadExistingReleases.
  repeat first
    [ apply adds_bind; [|intros ?]
    | apply adds_request; assumption
    | apply adds_console_log; apply Hreport
    | apply adds_set_exitCode
    | apply adds_ret
    | match goal with
      | |- adds _ (if ?b then _ else _) => destruct b
      end ].
Qed.

Hypothesis answered : forall n, rejects remote n = false.

Lemma yields_checkTags (options : list CliOption) :
  yields (checkTags remote options)
         (if (0 <? List.length
                     (notFound (or_empty (tags_data remote)) options))%nat
          then Some (tags_message
                       (notFound (or_empty (tags_data remote)) options))
          else None)
         [Request ListTags].
Proof.
  unfold checkTags.
  eapply yields_bind_eq;
    [apply yields_loadExistingTags; assumption| |reflexivity].
  cbv zeta.
  destruct (0 <? List.length
                   (notFound (or_empty (tags_data remote)) options))%nat;
    apply yields_ret.
Qed.

Lemma yields_checkReleases (options : list CliOption) :
  yields (checkReleases remote options)
         (if (0 <? List.length
                     (notFoundReleases (or_empty (releases_data remote))
                                       options))%nat
          then Some (releases_message
                       (notFoundReleases (or_empty (releases_data remote))
                                         options))
          else None)
         [Request ListReleases].
Proof.
  unfold checkReleases.
  eapply yields_bind_eq;
    [apply yields_loadExistingReleases; assumption| |reflexivity].
  cbv zeta.
  destruct (0 <? List.length
                   (notFoundReleases (or_empty (releases_data remote))
                                     options))%nat;
    apply yields_ret.
Qed.

Lemma yields_tag_check (options : list CliOption) (hasError : bool) :
  yields (guarded_check (filter isTagOption options) (checkTags remote)
                        hasError)
         (hasError || (0 <? List.length (missing_tags remote options))%nat)
         (Request ListTags :: tag_report remote options).
Proof.
  unfold guarded_check, truthy_array, tag_report.
  eapply yields_bind_eq; [apply yields_checkTags| |reflexivity].
  fold (missing_tags remote options).
  destruct (0 <? List.length (missing_tags remote options))%nat.
  - rewrite orb_true_r. cbn [truthy show tags_message].
    eapply yields_bind_eq;
      [apply yields_console_log|apply yields_ret|reflexivity].
  - rewrite orb_false_r. apply yields_ret.
Qed.

Lemma yields_release_check (options : list CliOption) (hasError : bool) :
  yields (guarded_check (filter isReleaseOption options)
                        (checkReleases remote) hasError)
         (hasError
          || (0 <? List.length (missing_releases remote options))%nat)
         (Request ListReleases :: release_report remote options).
Proof.
  unfold guarded_check, truthy_array, release_report.
  eapply yields_bind_eq; [apply yields_checkReleases| |reflexivity].
  fold (missing_releases remote options).
  destruct (0 <? List.length (missing_releases remote options))%nat.
  - rewrite orb_true_r. cbn [truthy show releases_message].
    eapply yields_bind_eq;
      [apply yields_console_log|apply yields_ret|reflexivity].
  - rewrite orb_false_r. apply yields_ret.
Qed.

(** A check run in which both listings are answered. *)
Lemma runChecks_answered (options : list CliOption) (p : Process) :
  runChecks remote options p
  = (Ret tt,
     {| trace := trace p
                 ++ Request ListTags :: tag_report remote options
                 ++ Request ListReleases :: release_report remote options;
        exitCode := if check_failed remote options then 1
                    else exitCode p |}).
Proof.
  unfold runChecks, check_failed. unfold bind at 1.
  rewrite (yields_tag_check options false p). cbn [orb]. unfold bind.
  rewrite (yields_release_check options _ _). cbn [trace exitCode].
  rewrite <- app_assoc. cbn [app].
  destruct ((0 <? List.length (missing_tags remote options))%nat
            || (0 <? List.length (missing_releases remote options))%nat);
    reflexivity.
Qed.

End CheckRuns.

(** ** Create mode *)

Section PacedBlocks.

Context {A : Type} (f : A -> Call).

Lemma calls_blocks (xs : list A) :
  calls (flat_map (fun x => [Request (f x); Delay API_DELAY_MS]) xs)
  = map f xs.
Proof.
  induction xs as [|x rest IH]; simpl; [reflexivity|].
  f_equal. exact IH.
Qed.

Lemma paced_blocks (exempt : Call -> bool) (xs : list A)
  (rest : list Event) :
  paced exempt
        (flat_map (fun x => [Request (f x); Delay API_DELAY_MS]) xs ++ rest)
  = paced exempt rest.
Proof.
  induction xs as [|x more IH]; simpl; [reflexivity|].
  rewrite orb_true_r. exact IH.
Qed.

Lemma resolutions_blocks (xs : list A) :
  (forall x, is_get_branch (f x) = false) ->
  resolutions (flat_map (fun x => [Request (f x); Delay API_DELAY_MS]) xs)
  = 0%nat.
Proof.
  intros Hf. unfold resolutions.
  induction xs as [|x more IH]; simpl; [reflexivity|].
  rewrite Hf. exact IH.
Qed.

End PacedBlocks.

Lemma resolutions_none (tr : list Event) :
  Forall (fun e => match e with
                   | Request call => is_get_branch call = false
                   | _ => True
                   end) tr ->
  resolutions tr = 0%nat.
Proof.
  unfold resolutions. induction 1 as [|e tr' He _ IH]; [reflexivity|].
  simpl. destruct e as [call| |]; try exact IH.
  rewrite He. exact IH.
Qed.

Lemma calls_app (tr tr' : list Event) :
  calls (tr ++ tr') = calls tr ++ calls tr'.
Proof. apply flat_map_app. Qed.

Lemma resolutions_app (tr tr' : list Event) :
  resolutions (tr ++ tr') = (resolutions tr + resolutions tr')%nat.
Proof. unfold resolutions. rewrite filter_app, length_app. reflexivity. Qed.

Section CreateTrace.

Variables (remote : Remote) (options : list CliOption).

Lemma runCreate_answered :
  (forall n, rejects remote n = false) ->
  existsb unclassifiable options = false ->
  runCreate remote options start
  = (Ret tt, {| trace := create_trace remote options; exitCode := 0 |}).
Proof.
  intros Hanswered Hvalid.
  exact (yields_runCreate remote Hanswered options Hvalid start).
Qed.

Lemma calls_create_trace :
  calls (create_trace remote options)
  = ListReleases
      :: map (fun release => DeleteRelease (release_id release))
             (or_empty (releases_data remote))
      ++ ListTags
      :: map (fun tag => DeleteRef ("tags/" ++ tag_name tag))
             (or_empty (tags_data remote))
      ++ calls (anchor_events options)
      ++ map (create_call (Some (main_sha remote))) options.
Proof.
  unfold create_trace, delete_release_events, delete_tag_events,
    create_events.
  rewrite !calls_app, !calls_blocks. reflexivity.
Qed.

Lemma paced_create_trace :
  paced is_get_branch (create_trace remote options) = true.
Proof.
  unfold create_trace, delete_release_events, delete_tag_events,
    create_events, anchor_events.
  cbn [app paced]. rewrite Z.eqb_refl, orb_true_r. cbn [andb].
  rewrite paced_blocks. cbn [app paced].
  rewrite Z.eqb_refl, orb_true_r. cbn [andb].
  rewrite paced_blocks.
  destruct (existsb isTagOption options);
    cbn [app paced is_get_branch orb andb].
  - rewrite <- (app_nil_r (flat_map _ options)). apply paced_blocks.
  - rewrite <- (app_nil_r (flat_map _ options)). apply paced_blocks.
Qed.

Lemma resolutions_create_trace :
  resolutions (create_trace remote options)
  = if existsb isTagOption options then 1%nat else 0%nat.
Proof.
  unfold create_trace, delete_release_events, delete_tag_events,
    create_events, anchor_events.
  rewrite !resolutions_app, !resolutions_blocks; try reflexivity.
  - destruct (existsb isTagOption options); reflexivity.
  - intros o. unfold create_call. destruct (isReleaseOption o); reflexivity.
Qed.

End CreateTrace.

(** C1: in a create run on classified options in which every request is
    answered, the trace is the listing of the releases and one deletion
    per release in listing order, then the listing of the tags and one
    deletion per tag in listing order, then the resolution of the anchor
    commit when a tag is wanted, then one creation per option in input
    order; every listing, deletion and creation is followed by the
    delay, and no creation comes before the last deletion. *)
Theorem create_run_order (remote : Remote) (options : list CliOption)
  (Hanswered : forall n, rejects remote n = false)
  (Hvalid : existsb unclassifiable options = false) :
  runCreate remote options start
  = (Ret tt,
     {| trace :=
          [Request ListReleases; Delay API_DELAY_MS]
            ++ flat_map delete_release_events
                        (or_empty (releases_data remote))
            ++ [Request ListTags; Delay API_DELAY_MS]
            ++ flat_map delete_tag_events (or_empty (tags_data remote))
            ++ anchor_events options
            ++ flat_map (create_events (Some (main_sha remote))) options;
        exitCode := 0 |})
  /\ calls (events (runCreate remote options start))
     = ListReleases
         :: map (fun release => DeleteRelease (release_id release))
                (or_empty (releases_data remote))
         ++ ListTags
         :: map (fun tag => DeleteRef ("tags/" ++ tag_name tag))
                (or_empty (tags_data remote))
         ++ calls (anchor_events options)
         ++ map (create_call (Some (main_sha remote))) options.
Proof.
  pose proof (runCreate_answered remote options Hanswered Hvalid) as Hrun.
  split; [exact Hrun|].
  unfold events. rewrite Hrun. apply calls_create_trace.
Qed.

Lemma create_run_order_witness :
  calls (events (runCreate
                   (mkRemote (Some [mkRelease 7 (Some "Old") "v0" false;
                                    mkRelease 9 None "v1" true])
                             (Some [mkTag "v0" "a1"; mkTag "v1" "b2"])
                             "c0ffee" (fun _ => false))
                   [mkOption (Some "Beta") (Some "v1.2.0") true;
                    mkOption None (Some "v1.2.0-alpha") false]
                   start))
  = [ListReleases; DeleteRelease 7; DeleteRelease 9;
     ListTags; DeleteRef "tags/v0"; DeleteRef "tags/v1";
     GetBranch "main";
     CreateRelease (Some "v1.2.0") (Some "Beta") true;
     CreateRef "refs/tags/v1.2.0-alpha" (Some "c0ffee")].
Proof.
  exact (proj2 (create_run_order
                  (mkRemote (Some [mkRelease 7 (Some "Old") "v0" false;
                                   mkRelease 9 None "v1" true])
                            (Some [mkTag "v0" "a1"; mkTag "v1" "b2"])
                            "c0ffee" (fun _ => false))
                  [mkOption (Some "Beta") (Some "v1.2.0") true;
                   mkOption None (Some "v1.2.0-alpha") false]
                  (fun _ => eq_refl) eq_refl)).
Defined.

(** C2: every tag a create run creates points at the tip of [main]
    that the run read; a run without tag option never asks for the tip;
    a run with one, on classified options and with every request
    answered, asks for it exactly once and creates each wanted tag at
    that commit. *)
Theorem anchor_commit_shared (remote : Remote) (options : list CliOption) :
  (forall ref sha,
     In (Request (CreateRef ref sha))
        (events (runCreate remote options start)) ->
     sha = Some (main_sha remote))
  /\ (existsb isTagOption options = false ->
      resolutions (events (runCreate remote options start)) = 0%nat)
  /\ ((forall n, rejects remote n = false) ->
      existsb unclassifiable options = false ->
      existsb isTagOption options = true ->
      resolutions (events (runCreate remote options start)) = 1%nat
      /\ forall o, In o options -> isTagOption o = true ->
           In (Request (CreateRef ("refs/tags/" ++ show (opt_tag o))
                                  (Some (main_sha remote))))
              (events (runCreate remote options start))).
Proof.
  split; [|split].
  - intros ref sha Hin.
    destruct (adds_runCreate remote
                (fun e => forall ref sha, e = Request (CreateRef ref sha) ->
                                          sha = Some (main_sha remote))
                options) with (p := start) as (evs & Htr & Hq).
    + discriminate.
    + intros call Hcall _ ref' sha' Heq. injection Heq as ->. discriminate.
    + intros _. split; [discriminate|].
      intros ref' ref'' sha' Heq. injection Heq as _ <-. reflexivity.
    + unfold events in Hin. rewrite Htr in Hin. simpl in Hin.
      rewrite Forall_forall in Hq. exact (Hq _ Hin ref sha eq_refl).
  - intros Hnone.
    destruct (adds_runCreate remote
                (fun e => match e with
                          | Request call => is_get_branch call = false
                          | _ => True
                          end)
                options) with (p := start) as (evs & Htr & Hq).
    + intros; exact I.
    + intros call _ Hcall. exact Hcall.
    + rewrite Hnone. discriminate.
    + unfold events. rewrite Htr. simpl. apply resolutions_none, Hq.
  - intros Hanswered Hvalid Hsome. unfold events.
    rewrite (runCreate_answered remote options Hanswered Hvalid).
    cbn [snd trace]. split.
    + rewrite resolutions_create_trace, Hsome. reflexivity.
    + intros o Ho Htag. unfold create_trace.
      repeat (apply in_or_app; right).
      apply in_flat_map. exists o. split; [assumption|].
      left. unfold create_call.
      assert (isReleaseOption o = false) as ->; [|reflexivity].
      unfold isTagOption, isReleaseOption in *.
      destruct (truthy (opt_name o)); [|reflexivity].
      rewrite andb_false_r in Htag. discriminate.
Qed.

Lemma anchor_commit_shared_witness :
  resolutions
    (events (runCreate (mkRemote None (Some [mkTag "v0" "a1"]) "c0ffee"
                                 (fun _ => false))
                       [mkOption None (Some "v1") false;
                        mkOption None (Some "v2") false] start))
  = 1%nat
  /\ In (Request (CreateRef "refs/tags/v2" (Some "c0ffee")))
        (events (runCreate (mkRemote None (Some [mkTag "v0" "a1"]) "c0ffee"
                                     (fun _ => false))
                           [mkOption None (Some "v1") false;
                            mkOption None (Some "v2") false] start)).
Proof.
  destruct (anchor_commit_shared
              (mkRemote None (Some [mkTag "v0" "a1"]) "c0ffee"
                        (fun _ => false))
              [mkOption None (Some "v1") false;
               mkOption None (Some "v2") false]) as (_ & _ & H).
  destruct (H (fun _ => eq_refl) eq_refl eq_refl) as [Hone Hall].
  split; [exact Hone|].
  exact (Hall (mkOption None (Some "v2") false)
              (or_intror (or_introl eq_refl)) eq_refl).
Defined.

(** The create run of two options, a draft release pinned to a tag and
    a tag, against a repository holding a release and two tags. *)
Example create_end_to_end :
  run (mkRemote (Some [mkRelease 7 (Some "Old") "v0" false])
                (Some [mkTag "v0" "a1"; mkTag "v1" "b2"]) "c0ffee"
                (fun _ => false))
      ["node"; "script"; "create";
       "rel:Beta,tag:v1.2.0,dft:true"; "tag:v1.2.0-alpha"] start
  = (Ret tt,
     {| trace :=
          [Request ListReleases; Delay 2500;
           Request (DeleteRelease 7); Delay 2500;
           Request ListTags; Delay 2500;
           Request (DeleteRef "tags/v0"); Delay 2500;
           Request (DeleteRef "tags/v1"); Delay 2500;
           Request (GetBranch "main");
           Request (CreateRelease (Some "v1.2.0") (Some "Beta") true);
           Delay 2500;
           Request (CreateRef "refs/tags/v1.2.0-alpha" (Some "c0ffee"));
           Delay 2500];
        exitCode := 0 |}).
Proof. reflexivity. Qed.

(** A rejected request ends the run where it stands: nothing is
    deleted again or created after it. *)
Example create_aborted :
  run (mkRemote (Some [mkRelease 7 (Some "Old") "v0" false])
                (Some [mkTag "v0" "a1"]) "c0ffee"
                (fun n => Nat.eqb n 2))
      ["node"; "script"; "create"; "tag:v1"] start
  = (Rejected,
     {| trace :=
          [Request ListReleases; Delay 2500;
           Request (DeleteRelease 7); Delay 2500;
           Request ListTags];
        exitCode := 0 |}).
Proof. reflexivity. Qed.

(** C5, as the script has it: in a create run that goes through, every
    listing, deletion and creation is directly followed by the delay of
    2500 ms; a check run awaits no delay at all. *)
Theorem create_requests_paced (remote : Remote) (options : list CliOption) :
  ((forall n, rejects remote n = false) ->
   existsb unclassifiable options = false ->
   paced is_get_branch (events (runCreate remote options start)) = true)
  /\ (forall timeoutMs,
        ~ In (Delay timeoutMs) (events (runChecks remote options start))).
Proof.
  split.
  - intros Hanswered Hvalid. unfold events.
    rewrite (runCreate_answered remote options Hanswered Hvalid).
    apply paced_create_trace.
  - intros timeoutMs Hin.
    destruct (adds_runChecks remote
                (fun e => forall ms, e <> Delay ms) options)
      with (p := start) as (evs & Htr & Hq); try discriminate.
    unfold events in Hin. rewrite Htr in Hin. simpl in Hin.
    rewrite Forall_forall in Hq. exact (Hq _ Hin timeoutMs eq_refl).
Qed.

Lemma create_requests_paced_witness :
  paced is_get_branch
    (events (runCreate (mkRemote (Some [mkRelease 7 (Some "Old") "v0" false])
                                 (Some [mkTag "v0" "a1"]) "c0ffee"
                                 (fun _ => false))
                       [mkOption (Some "Beta") (Some "v1.2.0") true;
                        mkOption None (Some "v1.2.0-alpha") false] start))
  = true.
Proof.
  exact (proj1 (create_requests_paced
                  (mkRemote (Some [mkRelease 7 (Some "Old") "v0" false])
                            (Some [mkTag "v0" "a1"]) "c0ffee"
                            (fun _ => false))
                  [mkOption (Some "Beta") (Some "v1.2.0") true;
                   mkOption None (Some "v1.2.0-alpha") false])
               (fun _ => eq_refl) eq_refl).
Defined.

(** C5 as stated fails: the two listings of a check run follow each
    other with no delay in between. *)
Lemma check_listings_not_paced :
  events (run (mkRemote None (Some [mkTag "v1" "a1"]) "c0ffee"
                        (fun _ => false))
              ["node"; "script"; "check"; "tag:v1"] start)
  = [Request ListTags; Request ListReleases]
  /\ paced (fun _ => false)
        (events (run (mkRemote None (Some [mkTag "v1" "a1"]) "c0ffee"
                               (fun _ => false))
                     ["node"; "script"; "check"; "tag:v1"] start))
     = false.
Proof. split; reflexivity. Qed.

(** In a create run the first creation follows the resolution of the
    anchor commit directly. *)
Example anchor_request_then_creation :
  events (run (mkRemote None None "c0ffee" (fun _ => false))
              ["node"; "script"; "create"; "tag:v1"] start)
  = [Request ListReleases; Delay 2500; Request ListTags; Delay 2500;
     Request (GetBranch "main");
     Request (CreateRef "refs/tags/v1" (Some "c0ffee")); Delay 2500].
Proof. reflexivity. Qed.

(** ** Check mode *)

Lemma defined_find {A : Type} (p : A -> bool) (xs : list A) :
  defined (find p xs) = true <-> exists x, In x xs /\ p x = true.
Proof.
  split.
  - destruct (find p xs) as [x|] eqn:Hfind; [|discriminate].
    intros _. exists x. exact (find_some _ _ Hfind).
  - intros (x & Hin & Hp).
    destruct (find_some_of_in p xs x Hin Hp) as (y & -> & _). reflexivity.
Qed.

Lemma strict_eq_true (a b : option string) :
  strict_eq a b = true <-> exists s, a = Some s /\ b = Some s.
Proof.
  destruct a as [x|], b as [y|]; simpl; split;
    try discriminate; try (intros (s & H1 & H2); discriminate).
  - intros H. apply String.eqb_eq in H as ->. eauto.
  - intros (s & H1 & H2). injection H1 as ->. injection H2 as ->.
    apply String.eqb_refl.
Qed.

Lemma tag_matches_true (o : CliOption) (t : RemoteTag) :
  tag_matches o t = true <-> opt_tag o = Some (tag_name t).
Proof.
  unfold tag_matches. rewrite strict_eq_true. split.
  - intros (s & H1 & H2). congruence.
  - intros H. eauto.
Qed.

Lemma release_matches_true (o : CliOption) (r : RemoteRelease) :
  release_matches o r = true <->
  opt_tag o = Some (release_tag_name r)
  /\ (exists n, release_name r = Some n /\ opt_name o = Some n)
  /\ release_draft r = opt_draft o.
Proof.
  unfold release_matches.
  rewrite !andb_true_iff, !strict_eq_true, Bool.eqb_true_iff. split.
  - intros [[(s & H1 & H2) Hn] Hd]. repeat split; congruence || assumption.
  - intros (Ht & Hn & Hd). repeat split; eauto.
Qed.

Lemma notFound_names (existingTags other : list RemoteTag)
  (options : list CliOption) :
  map tag_name other = map tag_name existingTags ->
  notFound other options = notFound existingTags options.
Proof.
  intros Hnames. unfold notFound. apply filter_ext. intros o.
  f_equal. revert other Hnames.
  induction existingTags as [|t rest IH]; intros [|t' rest'] Hnames;
    try discriminate; [reflexivity|].
  simpl in Hnames. injection Hnames as Hname Hrest. simpl.
  unfold tag_matches at 1 3. rewrite Hname.
  destruct (strict_eq (Some (tag_name t)) (opt_tag o)); [reflexivity|].
  apply IH, Hrest.
Qed.

(** C3: an expected tag counts as found exactly when some existing tag
    has its name, whatever the commits are; an expected release counts
    as found exactly when some existing release has its tag, its name
    and its draft flag, so that one differing field is enough for a
    release to be no match. *)
Theorem check_matching (remote : Remote) (options : list CliOption)
  (o : CliOption) (Hin : In o options) :
  (isTagOption o = true ->
   (~ In o (missing_tags remote options) <->
    exists t, In t (or_empty (tags_data remote))
              /\ opt_tag o = Some (tag_name t)))
  /\ (forall other,
        map tag_name (or_empty (tags_data other))
        = map tag_name (or_empty (tags_data remote)) ->
        missing_tags other options = missing_tags remote options)
  /\ (isReleaseOption o = true ->
      (~ In o (missing_releases remote options) <->
       exists r, In r (or_empty (releases_data remote))
                 /\ opt_tag o = Some (release_tag_name r)
                 /\ release_name r = opt_name o
                 /\ release_draft r = opt_draft o))
  /\ (forall r,
        release_matches o r = true <->
        opt_tag o = Some (release_tag_name r)
        /\ (exists n, release_name r = Some n /\ opt_name o = Some n)
        /\ release_draft r = opt_draft o).
Proof.
  split; [|split; [|split]].
  - intros Htag. unfold missing_tags, notFound.
    rewrite filter_In, filter_In, negb_true_iff.
    destruct (defined (find (tag_matches o) (or_empty (tags_data remote))))
      eqn:Hfound.
    + apply defined_find in Hfound as (t & Ht & Hm).
      apply tag_matches_true in Hm. split; [eauto|].
      intros _ [_ H]. discriminate.
    + split.
      * intros H. exfalso. apply H. auto.
      * intros (t & Ht & Hm). exfalso.
        assert (defined (find (tag_matches o)
                              (or_empty (tags_data remote))) = true)
          by (apply defined_find; exists t; split;
              [assumption|apply tag_matches_true; assumption]).
        congruence.
  - intros other Hnames. unfold missing_tags. apply notFound_names, Hnames.
  - intros Hrel. unfold missing_releases, notFoundReleases.
    rewrite filter_In, filter_In, negb_true_iff.
    assert (Hname : exists n, opt_name o = Some n).
    { unfold isReleaseOption in Hrel.
      destruct (opt_name o); [eauto|discriminate]. }
    destruct Hname as [n Hn].
    destruct (defined (find (release_matches o)
                            (or_empty (releases_data remote)))) eqn:Hfound.
    + apply defined_find in Hfound as (r & Hr & Hm).
      apply release_matches_true in Hm as (Ht & (n' & Hrn & Hon) & Hd).
      split; [|intros _ [_ H]; discriminate].
      intros _. exists r. repeat split; congruence || assumption.
    + split.
      * intros H. exfalso. apply H. auto.
      * intros (r & Hr & Ht & Hrn & Hd). exfalso.
        assert (defined (find (release_matches o)
                              (or_empty (releases_data remote))) = true).
        { apply defined_find. exists r. split; [assumption|].
          apply release_matches_true. repeat split; try assumption.
          exists n. split; congruence. }
        congruence.
  - intros r. apply release_matches_true.
Qed.

Lemma check_matching_witness :
  In (mkOption None (Some "v1") false)
     [mkOption None (Some "v1") false; mkOption (Some "R1") (Some "v1") false]
  /\ ~ In (mkOption None (Some "v1") false)
         (missing_tags
            (mkRemote (Some [mkRelease 7 (Some "R1") "v1" true])
                      (Some [mkTag "v1" "a1"]) "c0ffee" (fun _ => false))
            [mkOption None (Some "v1") false;
             mkOption (Some "R1") (Some "v1") false]).
Proof.
  split; [left; reflexivity|].
  apply (proj1 (check_matching
                  (mkRemote (Some [mkRelease 7 (Some "R1") "v1" true])
                            (Some [mkTag "v1" "a1"]) "c0ffee"
                            (fun _ => false))
                  [mkOption None (Some "v1") false;
                   mkOption (Some "R1") (Some "v1") false]
                  (mkOption None (Some "v1") false)
                  (or_introl eq_refl)) eq_refl).
  exists (mkTag "v1" "a1"). split; [left; reflexivity|reflexivity].
Defined.

(** A release that differs in the draft flag only is reported. *)
Example draft_mismatch_reported :
  run (mkRemote (Some [mkRelease 7 (Some "R1") "v1" true]) None "c0ffee"
                (fun _ => false))
      ["node"; "script"; "check"; "rel:R1,tag:v1"] start
  = (Ret tt,
     {| trace :=
          [Request ListTags; Request ListReleases;
           Report (releases_message [mkOption (Some "R1") (Some "v1") false])];
        exitCode := 1 |}).
Proof. reflexivity. Qed.

Lemma nonempty_length {A : Type} (xs : list A) :
  (0 <? List.length xs)%nat = true <-> xs <> [].
Proof.
  destruct xs as [|x rest]; simpl; split; intros H.
  - discriminate H.
  - contradiction H; reflexivity.
  - discriminate.
  - reflexivity.
Qed.

Lemma messages_written_out (missing : list CliOption) :
  tags_message missing = missing_tags_text missing
  /\ releases_message missing = missing_releases_text missing.
Proof. split; reflexivity. Qed.

Lemma not_found_iff {A : Type} (p : A -> bool) (xs : list A) :
  defined (find p xs) = false <-> ~ exists x, In x xs /\ p x = true.
Proof.
  rewrite <- defined_find.
  destruct (defined (find p xs)); split; congruence.
Qed.

(** C7: a check run in which both listings are answered always makes
    both listings, prints one report per partition with something
    missing, and ends normally with exit code 1 when something is
    missing and 0 otherwise; no check run ever quits on a fatal error,
    and it sends nothing but the two listings.  The report of a
    partition is the heading followed by one line for every expected
    option of the partition that no existing tag or release matches:
    the tag for a tag, the name, tag and draft flag for a release. *)
Theorem check_reports_all_mismatches (remote : Remote)
  (options : list CliOption) :
  ((forall n, rejects remote n = false) ->
   runChecks remote options start
   = (Ret tt,
      {| trace := Request ListTags :: tag_report remote options
                  ++ Request ListReleases :: release_report remote options;
         exitCode := if check_failed remote options then 1 else 0 |})
   /\ status (runChecks remote options start)
      = Exited (if check_failed remote options then 1 else 0))
  /\ (check_failed remote options = true <->
      missing_tags remote options <> []
      \/ missing_releases remote options <> [])
  /\ (forall f, fst (runChecks remote options start) <> Quit f)
  /\ Forall read_only (events (runChecks remote options start))
  /\ tag_report remote options
     = match missing_tags remote options with
       | [] => []
       | _ :: _ =>
           [Report (missing_tags_text (missing_tags remote options))]
       end
  /\ release_report remote options
     = match missing_releases remote options with
       | [] => []
       | _ :: _ =>
           [Report (missing_releases_text
                      (missing_releases remote options))]
       end
  /\ (forall o,
        In o (missing_tags remote options) <->
        In o options /\ isTagOption o = true
        /\ ~ exists t, In t (or_empty (tags_data remote))
                       /\ opt_tag o = Some (tag_name t))
  /\ (forall o,
        In o (missing_releases remote options) <->
        In o options /\ isReleaseOption o = true
        /\ ~ exists r, In r (or_empty (releases_data remote))
                       /\ opt_tag o = Some (release_tag_name r)
                       /\ (exists n, release_name r = Some n
                                     /\ opt_name o = Some n)
                       /\ release_draft r = opt_draft o).
Proof.
  split; [|split; [|split; [|split; [|split; [|split; [|split]]]]]].
  - intros Hanswered.
    pose proof (runChecks_answered remote Hanswered options start) as Hrun.
    split; [exact Hrun|]. unfold status. rewrite Hrun. reflexivity.
  - unfold check_failed. rewrite orb_true_iff, !nonempty_length. tauto.
  - apply never_quits_runChecks.
  - destruct (adds_runChecks remote read_only options)
      with (p := start) as (evs & Htr & Hq); try exact I.
    + intros message. exact I.
    + unfold events. rewrite Htr. exact Hq.
  - unfold tag_report.
    rewrite (proj1 (messages_written_out (missing_tags remote options))).
    destruct (missing_tags remote options); reflexivity.
  - unfold release_report.
    rewrite (proj2 (messages_written_out
                      (missing_releases remote options))).
    destruct (missing_releases remote options); reflexivity.
  - intros o. unfold missing_tags, notFound.
    rewrite !filter_In, negb_true_iff, not_found_iff.
    split.
    + intros [[Hin Htag] Hnone]. split; [exact Hin|]. split; [exact Htag|].
      intros (t & Ht & Hm). apply Hnone. exists t.
      split; [exact Ht|apply tag_matches_true, Hm].
    + intros (Hin & Htag & Hnone). split; [split; assumption|].
      intros (t & Ht & Hm). apply Hnone. exists t.
      split; [exact Ht|apply tag_matches_true, Hm].
  - intros o. unfold missing_releases, notFoundReleases.
    rewrite !filter_In, negb_true_iff, not_found_iff.
    split.
    + intros [[Hin Hrel] Hnone]. split; [exact Hin|]. split; [exact Hrel|].
      intros (r & Hr & Hm). apply Hnone. exists r.
      split; [exact Hr|apply release_matches_true, Hm].
    + intros (Hin & Hrel & Hnone). split; [split; assumption|].
      intros (r & Hr & Hm). apply Hnone. exists r.
      split; [exact Hr|apply release_matches_true, Hm].
Qed.

Lemma check_reports_all_mismatches_witness :
  runChecks (mkRemote None None "c0ffee" (fun _ => false))
            [mkOption None (Some "v1") false;
             mkOption (Some "R1") (Some "v1") false;
             mkOption None (Some "v2") false] start
  = (Ret tt,
     {| trace :=
          [Request ListTags;
           Report (missing_tags_text [mkOption None (Some "v1") false;
                                      mkOption None (Some "v2") false]);
           Request ListReleases;
           Report (missing_releases_text
                     [mkOption (Some "R1") (Some "v1") false])];
        exitCode := 1 |}).
Proof.
  exact (proj1 (proj1 (check_reports_all_mismatches
                         (mkRemote None None "c0ffee" (fun _ => false))
                         [mkOption None (Some "v1") false;
                          mkOption (Some "R1") (Some "v1") false;
                          mkOption None (Some "v2") false])
                      (fun _ => eq_refl))).
Defined.

(** A report, character by character. *)
Example report_text :
  missing_releases_text [mkOption (Some "R1") None true]
  = String.concat
      EmptyString
      ["Some expected releases were not found:"; String "010" EmptyString;
       String "009" EmptyString; "Name: R1 Tag: undefined Draft: true"].
Proof. reflexivity. Qed.



(** ** Fatal errors *)

Lemma processOptionPart_die (part : string) (e : Fatal) :
  processOptionPart part = Die e ->
  e = UnexpectedOptionPart part /\ unrecognized part = true.
Proof.
  unfold processOptionPart, unrecognized, recognized. cbv zeta.
  destruct (hd EmptyString (split_on ":" part) =? "tag"); [discriminate|].
  destruct (hd EmptyString (split_on ":" part) =? "rel"); [discriminate|].
  destruct (hd EmptyString (split_on ":" part) =? "dft"); [discriminate|].
  intros H. injection H as <-. split; reflexivity.
Qed.

Lemma unrecognized_dies (part : string) :
  unrecognized part = true ->
  processOptionPart part = Die (UnexpectedOptionPart part).
Proof.
  unfold processOptionPart, unrecognized, recognized. cbv zeta.
  destruct (hd EmptyString (split_on ":" part) =? "tag"); [discriminate|].
  destruct (hd EmptyString (split_on ":" part) =? "rel"); [discriminate|].
  destruct (hd EmptyString (split_on ":" part) =? "dft"); [discriminate|].
  reflexivity.
Qed.

Lemma processRawOption_die (rawOption : string) (e : Fatal) :
  processRawOption rawOption = Die e ->
  exists part, In part (split_on "," rawOption)
               /\ unrecognized part = true
               /\ e = UnexpectedOptionPart part.
Proof.
  unfold processRawOption.
  destruct (map_result processOptionPart (split_on "," rawOption))
    as [ps|e'] eqn:Hmap; [discriminate|].
  intros H. injection H as ->.
  destruct (map_result_die_in _ _ _ Hmap) as (part & Hin & Hpart).
  destruct (processOptionPart_die _ _ Hpart) as [-> Hun]. eauto.
Qed.

Lemma find_none_existsb {A : Type} (p : A -> bool) (xs : list A) :
  find p xs = None -> existsb p xs = false.
Proof.
  induction xs as [|x rest IH]; simpl; [reflexivity|].
  destruct (p x); [discriminate|exact IH].
Qed.

(** A run never quits once it has sent a request. *)
Lemma run_quit_early (remote : Remote) (argv : list string) (f : Fatal) :
  fst (run remote argv start) = Quit f ->
  run remote argv start = (Quit f, start).
Proof.
  unfold run.
  destruct (processArguments argv) as [[command options]|e] eqn:Hargs.
  - destruct (processArguments_ok _ _ _ Hargs) as (_ & _ & _ & Hfind).
    apply find_none_existsb in Hfind.
    destruct (List.length options =? 0)%nat.
    + intros H. injection H as <-. reflexivity.
    + destruct (strict_eq command (Some "create")).
      * intros H. exfalso.
        exact (never_quits_runCreate remote options Hfind start f H).
      * destruct (strict_eq command (Some "check")).
        -- intros H. exfalso.
           exact (never_quits_runChecks remote options start f H).
        -- discriminate.
  - intros H. injection H as <-. reflexivity.
Qed.

(** C8: an unsupported command, a part with an unrecognised key, an
    unclassifiable option and an empty list of options each make the
    run quit with status 1 before any request is sent; more generally a
    run that quits has sent nothing. *)
Theorem fatal_errors_precede_requests (remote : Remote)
  (argv : list string) :
  (includes SUPPORTED_COMMANDS (nth_error argv 2) = false ->
   run remote argv start
   = (Quit (UnsupportedCommand (nth_error argv 2)), start))
  /\ (includes SUPPORTED_COMMANDS (nth_error argv 2) = true ->
      (forall rawOption part,
         In rawOption (skipn 3 argv) ->
         In part (split_on "," rawOption) ->
         unrecognized part = true ->
         exists part',
           unrecognized part' = true
           /\ run remote argv start
              = (Quit (UnexpectedOptionPart part'), start))
      /\ (forall options o,
            map_result processRawOption (skipn 3 argv) = Ok options ->
            In o options -> unclassifiable o = true ->
            exists o',
              unclassifiable o' = true
              /\ run remote argv start = (Quit (InvalidOption o'), start))
      /\ (skipn 3 argv = [] ->
          run remote argv start = (Quit NoOptionsSupplied, start)))
  /\ (forall f,
        fst (run remote argv start) = Quit f ->
        run remote argv start = (Quit f, start)
        /\ status (run remote argv start) = Exited 1
        /\ events (run remote argv start) = []).
Proof.
  split; [|split].
  - intros Hcmd. apply run_die, processArguments_unsupported, Hcmd.
  - intros Hcmd. split; [|split].
    + intros rawOption part Hraw Hpart Hun.
      destruct (map_result_in_die processOptionPart _ _ _ Hpart
                  (unrecognized_dies part Hun)) as [e He].
      assert (Hdie : processRawOption rawOption = Die e)
        by (unfold processRawOption; rewrite He; reflexivity).
      destruct (map_result_in_die processRawOption _ _ _ Hraw Hdie)
        as [e' He'].
      destruct (map_result_die_in _ _ _ He') as (raw' & _ & Hraw').
      destruct (processRawOption_die _ _ Hraw') as (part' & _ & Hun' & ->).
      exists part'. split; [assumption|].
      apply run_die. unfold processArguments. cbv zeta.
      rewrite Hcmd, He'. reflexivity.
    + intros options o Hmap Hin Hbad.
      destruct (unclassifiable_dies argv options o Hcmd Hmap Hin Hbad)
        as (o' & Hdie & Ho').
      exists o'. split; [assumption|apply run_die, Hdie].
    + intros Hnone. unfold run, processArguments. cbv zeta.
      rewrite Hcmd, Hnone. reflexivity.
  - intros f Hf. pose proof (run_quit_early remote argv f Hf) as Hrun.
    split; [exact Hrun|]. rewrite Hrun. split; reflexivity.
Qed.

Lemma fatal_errors_precede_requests_witness :
  run (mkRemote None None "c0ffee" (fun _ => false))
      ["node"; "script"; "destroy"; "tag:v1"] start
  = (Quit (UnsupportedCommand (Some "destroy")), start)
  /\ (exists part',
        unrecognized part' = true
        /\ run (mkRemote None None "c0ffee" (fun _ => false))
               ["node"; "script"; "check"; "tag:v1,foo:bar"] start
           = (Quit (UnexpectedOptionPart part'), start))
  /\ run (mkRemote None None "c0ffee" (fun _ => false))
         ["node"; "script"; "create"] start
     = (Quit NoOptionsSupplied, start).
Proof.
  split; [|split].
  - exact (proj1 (fatal_errors_precede_requests
                    (mkRemote None None "c0ffee" (fun _ => false))
                    ["node"; "script"; "destroy"; "tag:v1"]) eq_refl).
  - exact (proj1 (proj1 (proj2 (fatal_errors_precede_requests
                    (mkRemote None None "c0ffee" (fun _ => false))
                    ["node"; "script"; "check"; "tag:v1,foo:bar"])) eq_refl)
                 "tag:v1,foo:bar" "foo:bar" (or_introl eq_refl)
                 (or_intror (or_introl eq_refl)) eq_refl).
  - exact (proj2 (proj2 (proj1 (proj2 (fatal_errors_precede_requests
                    (mkRemote None None "c0ffee" (fun _ => false))
                    ["node"; "script"; "create"])) eq_refl)) eq_refl).
Defined.

(** * Further properties *)

(** ** Splitting *)

Lemma split_on_cons (sep : ascii) (s : string) :
  exists piece pieces, split_on sep s = piece :: pieces.
Proof.
  induction s as [|c rest IH]; simpl; [eauto|].
  destruct (Ascii.eqb c sep); [eauto|].
  destruct IH as (piece & pieces & ->). eauto.
Qed.

Lemma split_on_whole (sep : ascii) (s : string) :
  contains sep s = false -> split_on sep s = [s].
Proof.
  induction s as [|c rest IH]; simpl; [reflexivity|].
  destruct (Ascii.eqb c sep); [discriminate|].
  simpl. intros H. rewrite (IH H). reflexivity.
Qed.

Lemma split_on_first (sep : ascii) (a b : string) :
  contains sep a = false ->
  split_on sep (a ++ String sep b)%string = a :: split_on sep b.
Proof.
  induction a as [|c rest IH]; simpl.
  - intros _. rewrite Ascii.eqb_refl. reflexivity.
  - destruct (Ascii.eqb c sep); [discriminate|].
    simpl. intros H. rewrite (IH H). reflexivity.
Qed.

(** Joining the pieces of a string with the separator gives the string
    back: splitting loses nothing. *)
Theorem join_split_on (sep : ascii) (s : string) :
  join (String sep EmptyString) (split_on sep s) = s.
Proof.
  unfold join. induction s as [|c rest IH]; simpl; [reflexivity|].
  destruct (Ascii.eqb_spec c sep) as [->|Hne].
  - destruct (split_on_cons sep rest) as (piece & pieces & Hsplit).
    rewrite Hsplit in *. rewrite <- IH. reflexivity.
  - destruct (split_on_cons sep rest) as (piece & pieces & Hsplit).
    rewrite Hsplit in *. rewrite <- IH.
    destruct pieces as [|next more]; reflexivity.
Qed.

Lemma join_cons (sep piece next : string) (more : list string) :
  join sep (piece :: next :: more)
  = (piece ++ sep ++ join sep (next :: more))%string.
Proof. reflexivity. Qed.

(** Splitting what was joined gives the pieces back, provided none of
    them holds the separator. *)
Lemma split_on_join (sep : ascii) (piece : string) (pieces : list string) :
  forallb (fun s => negb (contains sep s)) (piece :: pieces) = true ->
  split_on sep (join (String sep EmptyString) (piece :: pieces))
  = piece :: pieces.
Proof.
  revert piece; induction pieces as [|next more IH]; intros piece Hfree.
  - simpl in Hfree. rewrite andb_true_r, negb_true_iff in Hfree.
    apply split_on_whole, Hfree.
  - cbn [forallb] in Hfree. apply andb_true_iff in Hfree as [Hpiece Hrest].
    rewrite negb_true_iff in Hpiece. rewrite join_cons.
    change (String sep EmptyString ++ join (String sep EmptyString)
                                           (next :: more))%string
      with (String sep (join (String sep EmptyString) (next :: more))).
    rewrite (split_on_first sep piece _ Hpiece), (IH next Hrest).
    reflexivity.
Qed.

(** ** Parts *)

Section PartValues.

Variables (value junk : string).
Hypothesis one_piece : contains ":" value = false.

Lemma split_key_value (key : string) :
  contains ":" key = false ->
  split_on ":" (key ++ String ":" value)%string = [key; value]
  /\ exists more,
       split_on ":" (key ++ String ":" (value ++ String ":" junk))%string
       = key :: value :: more.
Proof.
  intros Hkey. rewrite !(split_on_first ":" key _ Hkey).
  rewrite (split_on_whole ":" value one_piece).
  rewrite (split_on_first ":" value junk one_piece). eauto.
Qed.

End PartValues.

(** X2: the value of a part is the text between its first and its
    second colon: a further colon and all that follows it are dropped
    without any error. *)
Theorem part_value_stops_at_colon (value junk : string)
  (Hvalue : contains ":" value = false) :
  processOptionPart ("tag:" ++ value) = Ok (PartTag (Some value))
  /\ processOptionPart ("tag:" ++ value ++ ":" ++ junk)
     = Ok (PartTag (Some value))
  /\ processOptionPart ("rel:" ++ value) = Ok (PartName (Some value))
  /\ processOptionPart ("rel:" ++ value ++ ":" ++ junk)
     = Ok (PartName (Some value))
  /\ processOptionPart ("dft:" ++ value ++ ":" ++ junk)
     = processOptionPart ("dft:" ++ value).
Proof.
  destruct (split_key_value value junk Hvalue "tag" eq_refl)
    as [Htag (tmore & Htag')].
  destruct (split_key_value value junk Hvalue "rel" eq_refl)
    as [Hrel (rmore & Hrel')].
  destruct (split_key_value value junk Hvalue "dft" eq_refl)
    as [Hdft (dmore & Hdft')].
  unfold processOptionPart.
  change ("tag:" ++ value)%string with ("tag" ++ String ":" value)%string.
  change ("rel:" ++ value)%string with ("rel" ++ String ":" value)%string.
  change ("dft:" ++ value)%string with ("dft" ++ String ":" value)%string.
  change ("tag:" ++ value ++ ":" ++ junk)%string
    with ("tag" ++ String ":" (value ++ String ":" junk))%string.
  change ("rel:" ++ value ++ ":" ++ junk)%string
    with ("rel" ++ String ":" (value ++ String ":" junk))%string.
  change ("dft:" ++ value ++ ":" ++ junk)%string
    with ("dft" ++ String ":" (value ++ String ":" junk))%string.
  rewrite Htag, Htag', Hrel, Hrel', Hdft, Hdft'.
  repeat split; reflexivity.
Qed.

Lemma part_value_stops_at_colon_witness :
  processOptionPart "tag:v1:rc:2" = Ok (PartTag (Some "v1"))
  /\ processOptionPart "rel:Beta:2" = Ok (PartName (Some "Beta")).
Proof.
  destruct (part_value_stops_at_colon "v1" "rc:2" eq_refl)
    as (_ & Htag & _).
  destruct (part_value_stops_at_colon "Beta" "2" eq_refl)
    as (_ & _ & _ & Hrel & _).
  split; assumption.
Defined.

(** X3: a [dft] part never fails, and it sets the draft flag only when
    its value is exactly [true]; a [dft] part without colon clears the
    flag. *)
Theorem draft_only_for_true (value : string)
  (Hvalue : contains ":" value = false) :
  processOptionPart ("dft:" ++ value) = Ok (PartDraft (value =? "true"))
  /\ (processOptionPart ("dft:" ++ value) = Ok (PartDraft true)
      <-> value = "true")
  /\ processOptionPart "dft" = Ok (PartDraft false).
Proof.
  assert (H : processOptionPart ("dft:" ++ value)
              = Ok (PartDraft (value =? "true"))).
  { unfold processOptionPart.
    change ("dft:" ++ value)%string with ("dft" ++ String ":" value)%string.
    rewrite (split_on_first ":" "dft" value eq_refl).
    rewrite (split_on_whole ":" value Hvalue). reflexivity. }
  split; [exact H|]. split; [|reflexivity].
  rewrite H. split.
  - intros Heq. injection Heq as Heq. apply String.eqb_eq, Heq.
  - intros ->. reflexivity.
Qed.

Lemma draft_only_for_true_witness :
  processOptionPart "dft:TRUE" = Ok (PartDraft false)
  /\ processOptionPart "dft:true" = Ok (PartDraft true).
Proof.
  split.
  - exact (proj1 (draft_only_for_true "TRUE" eq_refl)).
  - exact (proj1 (draft_only_for_true "true" eq_refl)).
Defined.

(** ** Raw options *)

Lemma plain_part (key value : string) :
  contains ":" key = false -> contains "," key = false ->
  contains ":" value = false -> contains "," value = false ->
  contains "," (key ++ String ":" value)%string = false
  /\ split_on ":" (key ++ String ":" value)%string = [key; value].
Proof.
  intros Hk Hk' Hv Hv'. split.
  - clear Hk Hv. induction key as [|c rest IH]; simpl in *.
    + exact Hv'.
    + apply orb_false_iff in Hk' as [Hc Hrest].
      rewrite Hc. simpl. apply IH, Hrest.
  - rewrite (split_on_first ":" key value Hk).
    rewrite (split_on_whole ":" value Hv). reflexivity.
Qed.

(** X1: the meaning of the option grammar.  For a name and a tag free of
    commas and colons, [tag:<tag>] is the option with that tag alone,
    [rel:<name>] the option with that name alone, and the three-part
    form the draft release of that name and tag; a non-empty tag alone
    is a tag option and a non-empty name always a release option. *)
Theorem raw_option_meaning (name tag : string)
  (Hname : contains ":" name = false) (Hname' : contains "," name = false)
  (Htag : contains ":" tag = false) (Htag' : contains "," tag = false) :
  processRawOption ("tag:" ++ tag) = Ok (mkOption None (Some tag) false)
  /\ processRawOption ("rel:" ++ name) = Ok (mkOption (Some name) None false)
  /\ processRawOption
       (join "," ["rel:" ++ name; "tag:" ++ tag; "dft:true"]%string)
     = Ok (mkOption (Some name) (Some tag) true)
  /\ isTagOption (mkOption None (Some tag) false) = negb (tag =? "")
  /\ (forall t d, isReleaseOption (mkOption (Some name) t d)
                  = negb (name =? "")).
Proof.
  destruct (plain_part "tag" tag eq_refl eq_refl Htag Htag')
    as [Ctag Stag].
  destruct (plain_part "rel" name eq_refl eq_refl Hname Hname')
    as [Crel Srel].
  assert (Ptag : processOptionPart ("tag:" ++ tag)
                 = Ok (PartTag (Some tag))).
  { unfold processOptionPart.
    change ("tag:" ++ tag)%string with ("tag" ++ String ":" tag)%string.
    rewrite Stag. reflexivity. }
  assert (Prel : processOptionPart ("rel:" ++ name)
                 = Ok (PartName (Some name))).
  { unfold processOptionPart.
    change ("rel:" ++ name)%string with ("rel" ++ String ":" name)%string.
    rewrite Srel. reflexivity. }
  split; [|split; [|split; [|split]]].
  - unfold processRawOption.
    change ("tag:" ++ tag)%string with ("tag" ++ String ":" tag)%string.
    rewrite (split_on_whole "," _ Ctag). cbn [map_result].
    change ("tag" ++ String ":" tag)%string with ("tag:" ++ tag)%string.
    rewrite Ptag. reflexivity.
  - unfold processRawOption.
    change ("rel:" ++ name)%string with ("rel" ++ String ":" name)%string.
    rewrite (split_on_whole "," _ Crel). cbn [map_result].
    change ("rel" ++ String ":" name)%string with ("rel:" ++ name)%string.
    rewrite Prel. reflexivity.
  - unfold processRawOption.
    rewrite (split_on_join "," ("rel:" ++ name)%string).
    + cbn [map_result]. rewrite Prel, Ptag. reflexivity.
    + cbn [forallb].
      change ("rel:" ++ name)%string with ("rel" ++ String ":" name)%string.
      change ("tag:" ++ tag)%string with ("tag" ++ String ":" tag)%string.
      rewrite Crel, Ctag. reflexivity.
  - unfold isTagOption. simpl. rewrite !andb_true_r. reflexivity.
  - intros t d. reflexivity.
Qed.

Lemma raw_option_meaning_witness :
  processRawOption "rel:Beta,tag:v1.2.0,dft:true"
  = Ok (mkOption (Some "Beta") (Some "v1.2.0") true)
  /\ processRawOption "tag:v1.2.0-alpha"
     = Ok (mkOption None (Some "v1.2.0-alpha") false).
Proof.
  destruct (raw_option_meaning "Beta" "v1.2.0" eq_refl eq_refl eq_refl
                               eq_refl) as (_ & _ & Hfull & _).
  destruct (raw_option_meaning "Beta" "v1.2.0-alpha" eq_refl eq_refl
                               eq_refl eq_refl) as (Htag & _).
  split; assumption.
Defined.

(** ** Which error is reported *)

Lemma recognized_parses (part : string) :
  unrecognized part = false -> exists it, processOptionPart part = Ok it.
Proof.
  unfold processOptionPart, unrecognized, recognized. cbv zeta.
  destruct (hd EmptyString (split_on ":" part) =? "tag"); [eauto|].
  destruct (hd EmptyString (split_on ":" part) =? "rel"); [eauto|].
  destruct (hd EmptyString (split_on ":" part) =? "dft"); [eauto|].
  discriminate.
Qed.

Lemma parts_outcome (parts : list string) :
  match find unrecognized parts with
  | Some part =>
      map_result processOptionPart parts = Die (UnexpectedOptionPart part)
  | None => exists ps, map_result processOptionPart parts = Ok ps
  end.
Proof.
  induction parts as [|part rest IH]; simpl; [eauto|].
  destruct (unrecognized part) eqn:Hun.
  - rewrite (unrecognized_dies part Hun). reflexivity.
  - destruct (recognized_parses part Hun) as [it ->].
    destruct (find unrecognized rest) as [bad|].
    + rewrite IH. reflexivity.
    + destruct IH as [ps ->]. eauto.
Qed.

Lemma find_app {A : Type} (p : A -> bool) (xs ys : list A) :
  find p (xs ++ ys)
  = match find p xs with Some x => Some x | None => find p ys end.
Proof.
  induction xs as [|x rest IH]; simpl; [reflexivity|].
  destruct (p x); [reflexivity|exact IH].
Qed.

Lemma raw_options_outcome (rawOptions : list string) :
  match find unrecognized (flat_map (split_on ",") rawOptions) with
  | Some part =>
      map_result processRawOption rawOptions
      = Die (UnexpectedOptionPart part)
  | None =>
      exists options,
        map_result processRawOption rawOptions = Ok options
        /\ List.length options = List.length rawOptions
  end.
Proof.
  induction rawOptions as [|rawOption rest IH]; simpl; [eauto|].
  rewrite find_app. unfold processRawOption at 1 3.
  pose proof (parts_outcome (split_on "," rawOption)) as Hparts.
  destruct (find unrecognized (split_on "," rawOption)) as [bad|].
  - rewrite Hparts. reflexivity.
  - destruct Hparts as [ps ->].
    destruct (find unrecognized (flat_map (split_on ",") rest)) as [bad|].
    + rewrite IH. reflexivity.
    + destruct IH as (options & -> & Hlen). eexists. split; [reflexivity|].
      simpl. rewrite Hlen. reflexivity.
Qed.

(** X4: which error the arguments end on.  An unsupported command is
    reported whatever the options are; otherwise the first part with an
    unrecognised key, in the order of the command line, is reported even
    when an earlier option is unclassifiable; only when every part is
    recognised is the first unclassifiable option reported, and the
    arguments are accepted when there is none, with one option per raw
    option. *)
Theorem error_priority (argv : list string) :
  (includes SUPPORTED_COMMANDS (nth_error argv 2) = false ->
   processArguments argv = Die (UnsupportedCommand (nth_error argv 2)))
  /\ (includes SUPPORTED_COMMANDS (nth_error argv 2) = true ->
      forall part,
        find unrecognized (flat_map (split_on ",") (skipn 3 argv))
        = Some part ->
        processArguments argv = Die (UnexpectedOptionPart part))
  /\ (includes SUPPORTED_COMMANDS (nth_error argv 2) = true ->
      find unrecognized (flat_map (split_on ",") (skipn 3 argv)) = None ->
      exists options,
        map_result processRawOption (skipn 3 argv) = Ok options
        /\ List.length options = List.length (skipn 3 argv)
        /\ processArguments argv
           = match find unclassifiable options with
             | Some option => Die (InvalidOption option)
             | None => Ok (nth_error argv 2, options)
             end).
Proof.
  pose proof (raw_options_outcome (skipn 3 argv)) as Hraw.
  split; [apply processArguments_unsupported|]. split.
  - intros Hcmd part Hfind. rewrite Hfind in Hraw.
    unfold processArguments. cbv zeta. rewrite Hcmd, Hraw. reflexivity.
  - intros Hcmd Hfind. rewrite Hfind in Hraw.
    destruct Hraw as (options & Hmap & Hlen). exists options.
    split; [assumption|]. split; [assumption|].
    unfold processArguments. cbv zeta. rewrite Hcmd, Hmap. reflexivity.
Qed.

Lemma error_priority_witness :
  processArguments ["node"; "script"; "check"; "tag:"; "tag:v1,foo:bar"]
  = Die (UnexpectedOptionPart "foo:bar")
  /\ processArguments ["node"; "script"; "purge"; "foo:bar"]
     = Die (UnsupportedCommand (Some "purge")).
Proof.
  split.
  - exact (proj1 (proj2 (error_priority
                           ["node"; "script"; "check"; "tag:";
                            "tag:v1,foo:bar"])) eq_refl "foo:bar" eq_refl).
  - exact (proj1 (error_priority ["node"; "script"; "purge"; "foo:bar"])
                 eq_refl).
Defined.

(** ** Runs cut short by a rejected request *)

Lemma extend_extend (p : Process) (evs evs' : list Event) :
  extend (extend p evs) evs' = extend p (evs ++ evs').
Proof. unfold extend. simpl. rewrite app_assoc. reflexivity. Qed.

Lemma issued_calls (tr : list Event) : issued tr = List.length (calls tr).
Proof.
  unfold issued, calls. induction tr as [|e rest IH]; simpl; [reflexivity|].
  destruct e; simpl; rewrite ?IH; reflexivity.
Qed.

Lemma issued_app (tr tr' : list Event) :
  issued (tr ++ tr') = (issued tr + issued tr')%nat.
Proof. unfold issued. rewrite filter_app, length_app. reflexivity. Qed.

Section Tracks.

Variable remote : Remote.

Lemma tracks_ret {A : Type} (a : A) : tracks remote (ret a) a [].
Proof.
  intros [tr code]. left. unfold ret, extend. simpl.
  rewrite app_nil_r. split; [reflexivity|].
  intros j Hj. inversion Hj.
Qed.

Lemma tracks_bind {A B : Type} (m : M A) (k : A -> M B) (a : A) (b : B)
  (evs evs' all : list Event) :
  tracks remote m a evs -> tracks remote (k a) b evs' ->
  all = evs ++ evs' ->
  tracks remote (bind m k) b all.
Proof.
  intros Hm Hk -> p. unfold bind.
  destruct (Hm p) as [[-> Hans] | (pre & call & post & -> & Hans & Hrej & ->)].
  - destruct (Hk (extend p evs))
      as [[-> Hans'] | (pre & call & post & -> & Hans' & Hrej & ->)];
      cbn [extend trace] in *; rewrite issued_app in *.
    + left. rewrite extend_extend. split; [reflexivity|].
      intros j Hj. rewrite issued_app in Hj.
      destruct (Nat.lt_ge_cases j (issued evs)) as [Hlt|Hge].
      * apply Hans, Hlt.
      * replace (issued (trace p) + j)%nat
          with (issued (trace p) + issued evs + (j - issued evs))%nat
          by lia.
        apply Hans'. lia.
    + right. exists (evs ++ pre), call, post.
      split; [rewrite app_assoc; reflexivity|].
      split; [|split].
      * intros j Hj. rewrite issued_app in Hj.
        destruct (Nat.lt_ge_cases j (issued evs)) as [Hlt|Hge].
        -- apply Hans, Hlt.
        -- replace (issued (trace p) + j)%nat
             with (issued (trace p) + issued evs + (j - issued evs))%nat
             by lia.
           apply Hans'. lia.
      * rewrite issued_app, Nat.add_assoc. exact Hrej.
      * rewrite extend_extend, app_assoc. reflexivity.
  - right. exists pre, call, (post ++ evs').
    split; [rewrite <- app_assoc; reflexivity|].
    split; [exact Hans|]. split; [exact Hrej|reflexivity].
Qed.

Lemma tracks_request (call : Call) :
  tracks remote (request remote call) tt [Request call].
Proof.
  intros p. unfold request.
  destruct (rejects remote (issued (trace p))) eqn:Hrej.
  - right. exists [], call, []. split; [reflexivity|].
    split; [intros j Hj; inversion Hj|].
    split; [rewrite Nat.add_0_r; exact Hrej|reflexivity].
  - left. split; [reflexivity|].
    intros j Hj. cbn in Hj.
    replace j with 0%nat by lia. rewrite Nat.add_0_r. exact Hrej.
Qed.

Lemma tracks_delay (timeoutMs : Z) :
  tracks remote (delay timeoutMs) tt [Delay timeoutMs].
Proof.
  intros p. left. split; [reflexivity|]. intros j Hj. inversion Hj.
Qed.

Lemma tracks_paced_request (call : Call) :
  tracks remote (request remote call ;; delay API_DELAY_MS) tt
         [Request call; Delay API_DELAY_MS].
Proof.
  eapply tracks_bind;
    [apply tracks_request|apply tracks_delay|reflexivity].
Qed.

Lemma tracks_for_each {A : Type} (xs : list A) (body : A -> M unit)
  (evs : A -> list Event) :
  (forall x, In x xs -> tracks remote (body x) tt (evs x)) ->
  tracks remote (for_each xs body) tt (flat_map evs xs).
Proof.
  induction xs as [|x rest IH]; intros H; simpl.
  - apply tracks_ret.
  - eapply tracks_bind; [apply H; left; reflexivity| |reflexivity].
    apply IH. intros y Hy. apply H. right; assumption.
Qed.

Lemma tracks_create (sha : option string) (o : CliOption) :
  unclassifiable o = false ->
  tracks remote
         ((if isReleaseOption o then createRelease remote o
           else if isTagOption o then createTag remote o sha
           else logAndQuit (UnexpectedOption o)) ;; delay API_DELAY_MS)
         tt (create_events sha o).
Proof.
  unfold unclassifiable, create_events, create_call. intros Hvalid.
  destruct (isReleaseOption o); [apply tracks_paced_request|].
  destruct (isTagOption o); [apply tracks_paced_request|discriminate].
Qed.

Lemma tracks_deleteExistingReleases :
  tracks remote (deleteExistingReleases remote) tt
    ([Request ListReleases; Delay API_DELAY_MS]
       ++ flat_map delete_release_events (or_empty (releases_data remote))).
Proof.
  unfold deleteExistingReleases, loadExistingReleases.
  eapply tracks_bind.
  - eapply tracks_bind;
      [apply tracks_request|apply tracks_ret|reflexivity].
  - eapply tracks_bind; [apply tracks_delay| |reflexivity].
    apply tracks_for_each. intros release _. apply tracks_paced_request.
  - reflexivity.
Qed.

Lemma tracks_deleteExistingTags :
  tracks remote (deleteExistingTags remote) tt
    ([Request ListTags; Delay API_DELAY_MS]
       ++ flat_map delete_tag_events (or_empty (tags_data remote))).
Proof.
  unfold deleteExistingTags, loadExistingTags.
  eapply tracks_bind.
  - eapply tracks_bind;
      [apply tracks_request|apply tracks_ret|reflexivity].
  - eapply tracks_bind; [apply tracks_delay| |reflexivity].
    apply tracks_for_each. intros tag _. apply tracks_paced_request.
  - reflexivity.
Qed.

Lemma tracks_runCreate (options : list CliOption) :
  existsb unclassifiable options = false ->
  tracks remote (runCreate remote options) tt (create_trace remote options).
Proof.
  intros Hvalid. unfold runCreate, create_trace, anchor_events.
  eapply tracks_bind;
    [apply tracks_deleteExistingReleases| |rewrite <- app_assoc; reflexivity].
  eapply tracks_bind;
    [apply tracks_deleteExistingTags| |rewrite <- app_assoc; reflexivity].
  destruct (existsb isTagOption options) eqn:Htags.
  - eapply tracks_bind.
    + eapply tracks_bind;
        [apply tracks_request|apply tracks_ret|reflexivity].
    + apply tracks_for_each. intros o Ho. apply tracks_create.
      apply (existsb_false_in _ _ _ Hvalid Ho).
    + reflexivity.
  - eapply tracks_bind; [apply tracks_ret| |reflexivity].
    rewrite (flat_map_agree (create_events (Some (main_sha remote)))
                            (create_events None)).
    + apply tracks_for_each. intros o Ho. apply tracks_create.
      apply (existsb_false_in _ _ _ Hvalid Ho).
    + intros o Ho. unfold create_events. f_equal. f_equal.
      apply release_create_call.
      pose proof (existsb_false_in _ _ _ Hvalid Ho) as Hu.
      pose proof (existsb_false_in _ _ _ Htags Ho) as Ht.
      unfold unclassifiable in Hu. rewrite Ht in Hu.
      destruct (isReleaseOption o); [reflexivity|discriminate].
Qed.

End Tracks.

(** X5: a create run on classified options goes through when none of
    the requests it has to send is rejected, and ends normally.  When
    one of them is rejected, the run stops at the first rejected one:
    its trace is the full trace up to and including that request,
    nothing is retried or sent after it, and the run does not end
    normally: the rejection leaves [run()] uncaught. *)
Theorem create_run_cut_short (remote : Remote) (options : list CliOption)
  (Hvalid : existsb unclassifiable options = false) :
  ((forall n, (n < List.length (calls (create_trace remote options)))%nat
              -> rejects remote n = false) ->
   runCreate remote options start
   = (Ret tt, {| trace := create_trace remote options; exitCode := 0 |})
   /\ status (runCreate remote options start) = Exited 0)
  /\ (forall k,
        (k < List.length (calls (create_trace remote options)))%nat ->
        rejects remote k = true ->
        (forall j, (j < k)%nat -> rejects remote j = false) ->
        exists pre call post,
          create_trace remote options = pre ++ Request call :: post
          /\ List.length (calls pre) = k
          /\ runCreate remote options start
             = (Rejected,
                {| trace := pre ++ [Request call]; exitCode := 0 |})
          /\ status (runCreate remote options start) = Uncaught).
Proof.
  pose proof (tracks_runCreate remote options Hvalid start) as Hrun.
  cbn [trace start issued filter List.length Nat.add] in Hrun.
  split.
  - intros Hanswered.
    destruct Hrun as [[Hrun _] | (pre & call & post & Htr & _ & Hrej & _)].
    + split; [exact Hrun|]. unfold status. rewrite Hrun. reflexivity.
    + rewrite Hanswered in Hrej; [discriminate|].
      rewrite Htr, calls_app, length_app, <- issued_calls. simpl. lia.
  - intros k Hk Hrejected Hfirst.
    destruct Hrun as [[_ Hans] | (pre & call & post & Htr & Hans & Hrej & Hrun)].
    + rewrite <- issued_calls in Hk.
      assert (H0 : rejects remote k = false) by exact (Hans k Hk).
      rewrite H0 in Hrejected. discriminate.
    + exists pre, call, post.
      assert (Hsame : issued pre = k).
      { destruct (Nat.lt_trichotomy (issued pre) k) as [Hlt|[Heq|Hgt]].
        - rewrite (Hfirst _ Hlt) in Hrej. discriminate.
        - exact Heq.
        - assert (H0 : rejects remote k = false) by exact (Hans k Hgt).
          rewrite H0 in Hrejected. discriminate. }
      split; [exact Htr|]. split; [rewrite <- issued_calls; exact Hsame|].
      split; [exact Hrun|]. unfold status. rewrite Hrun. reflexivity.
Qed.

Lemma create_run_cut_short_witness :
  (exists pre call post,
     create_trace
       (mkRemote (Some [mkRelease 7 (Some "Old") "v0" false])
                 (Some [mkTag "v0" "a1"]) "c0ffee"
                 (fun n => (2 <=? n)%nat))
       [mkOption None (Some "v1") false]
     = pre ++ Request call :: post
     /\ List.length (calls pre) = 2%nat
     /\ runCreate
          (mkRemote (Some [mkRelease 7 (Some "Old") "v0" false])
                    (Some [mkTag "v0" "a1"]) "c0ffee"
                    (fun n => (2 <=? n)%nat))
          [mkOption None (Some "v1") false] start
        = (Rejected, {| trace := pre ++ [Request call]; exitCode := 0 |})
     /\ status
          (runCreate
             (mkRemote (Some [mkRelease 7 (Some "Old") "v0" false])
                       (Some [mkTag "v0" "a1"]) "c0ffee"
                       (fun n => (2 <=? n)%nat))
             [mkOption None (Some "v1") false] start)
        = Uncaught)
  /\ events
       (runCreate
          (mkRemote (Some [mkRelease 7 (Some "Old") "v0" false])
                    (Some [mkTag "v0" "a1"]) "c0ffee"
                    (fun n => (2 <=? n)%nat))
          [mkOption None (Some "v1") false] start)
     = [Request ListReleases; Delay 2500;
        Request (DeleteRelease 7); Delay 2500; Request ListTags].
Proof.
  split; [|reflexivity].
  apply (proj2 (create_run_cut_short
                  (mkRemote (Some [mkRelease 7 (Some "Old") "v0" false])
                            (Some [mkTag "v0" "a1"]) "c0ffee"
                            (fun n => (2 <=? n)%nat))
                  [mkOption None (Some "v1") false] eq_refl) 2%nat).
  - simpl. lia.
  - reflexivity.
  - intros j Hj. apply Nat.leb_gt. exact Hj.
Defined.

Section CheckCutShort.

Variables (remote : Remote) (options : list CliOption).

Lemma issued_tag_report (tr : list Event) :
  issued (tr ++ Request ListTags :: tag_report remote options)
  = S (issued tr).
Proof.
  unfold issued, tag_report. rewrite filter_app, length_app.
  destruct (0 <? List.length (missing_tags remote options))%nat;
    simpl; lia.
Qed.

Lemma messages_nonempty (missing : list CliOption) :
  (tags_message missing =? "") = false
  /\ (releases_message missing =? "") = false.
Proof. split; reflexivity. Qed.

Lemma tag_check_answered (hasError : bool) (p : Process) :
  rejects remote (issued (trace p)) = false ->
  guarded_check (filter isTagOption options) (checkTags remote) hasError p
  = (Ret (hasError
          || (0 <? List.length (missing_tags remote options))%nat),
     extend p (Request ListTags :: tag_report remote options)).
Proof.
  intros Hans.
  unfold guarded_check, truthy_array, checkTags, loadExistingTags,
    tag_report, bind, request, ret. rewrite Hans. cbv zeta.
  fold (missing_tags remote options).
  destruct (0 <? List.length (missing_tags remote options))%nat.
  - rewrite orb_true_r. cbn [truthy show].
    rewrite (proj1 (messages_nonempty _)). cbn [negb].
    unfold console_log, emit, extend. cbn [trace exitCode].
    rewrite <- app_assoc. reflexivity.
  - rewrite orb_false_r. reflexivity.
Qed.

Lemma release_check_answered (hasError : bool) (p : Process) :
  rejects remote (issued (trace p)) = false ->
  guarded_check (filter isReleaseOption options) (checkReleases remote)
                hasError p
  = (Ret (hasError
          || (0 <? List.length (missing_releases remote options))%nat),
     extend p (Request ListReleases :: release_report remote options)).
Proof.
  intros Hans.
  unfold guarded_check, truthy_array, checkReleases, loadExistingReleases,
    release_report, bind, request, ret. rewrite Hans. cbv zeta.
  fold (missing_releases remote options).
  destruct (0 <? List.length (missing_releases remote options))%nat.
  - rewrite orb_true_r. cbn [truthy show].
    rewrite (proj2 (messages_nonempty _)). cbn [negb].
    unfold console_log, emit, extend. cbn [trace exitCode].
    rewrite <- app_assoc. reflexivity.
  - rewrite orb_false_r. reflexivity.
Qed.

Lemma tag_check_rejected (hasError : bool) (p : Process) :
  rejects remote (issued (trace p)) = true ->
  guarded_check (filter isTagOption options) (checkTags remote) hasError p
  = (Rejected, extend p [Request ListTags]).
Proof.
  intros Hrej.
  unfold guarded_check, truthy_array, checkTags, loadExistingTags,
    bind, request. rewrite Hrej. reflexivity.
Qed.

Lemma release_check_rejected (hasError : bool) (p : Process) :
  rejects remote (issued (trace p)) = true ->
  guarded_check (filter isReleaseOption options) (checkReleases remote)
                hasError p
  = (Rejected, extend p [Request ListReleases]).
Proof.
  intros Hrej.
  unfold guarded_check, truthy_array, checkReleases, loadExistingReleases,
    bind, request. rewrite Hrej. reflexivity.
Qed.

End CheckCutShort.

(** X6: what a rejected listing does to a check run.  When the listing
    of the tags is rejected the run stops there: the releases are never
    listed and nothing is reported.  When the listing of the releases is
    rejected the missing tags have already been reported, and the run
    stops there.  In both cases the run does not end normally: the
    rejection leaves [run()] uncaught, and the assignment of the exit
    code at the end of [runChecks] is never reached.  The run goes
    through, and ends with exit code 1 or 0, as soon as its two requests
    are answered. *)
Theorem check_run_cut_short (remote : Remote) (options : list CliOption) :
  (rejects remote 0 = true ->
   runChecks remote options start
   = (Rejected, {| trace := [Request ListTags]; exitCode := 0 |})
   /\ status (runChecks remote options start) = Uncaught)
  /\ (rejects remote 0 = false -> rejects remote 1 = true ->
      runChecks remote options start
      = (Rejected,
         {| trace := Request ListTags :: tag_report remote options
                     ++ [Request ListReleases];
            exitCode := 0 |})
      /\ status (runChecks remote options start) = Uncaught)
  /\ (rejects remote 0 = false -> rejects remote 1 = false ->
      runChecks remote options start
      = (Ret tt,
         {| trace := Request ListTags :: tag_report remote options
                     ++ Request ListReleases
                     :: release_report remote options;
            exitCode := if check_failed remote options then 1 else 0 |})
      /\ status (runChecks remote options start)
         = Exited (if check_failed remote options then 1 else 0)).
Proof.
  assert (Hstatus : forall (r : Res unit) (p : Process),
            runChecks remote options start = (r, p) ->
            status (runChecks remote options start)
            = match r with
              | Ret _ => Exited (exitCode p)
              | Quit _ => Exited 1
              | Rejected => Uncaught
              end).
  { intros r p ->. reflexivity. }
  split; [|split].
  - intros H0.
    assert (Hrun : runChecks remote options start
                   = (Rejected,
                      {| trace := [Request ListTags]; exitCode := 0 |})).
    { unfold runChecks, bind at 1 2.
      rewrite (tag_check_rejected remote options false start H0).
      reflexivity. }
    split; [exact Hrun|exact (Hstatus _ _ Hrun)].
  - intros H0 H1.
    assert (Hrun : runChecks remote options start
                   = (Rejected,
                      {| trace := Request ListTags
                                  :: tag_report remote options
                                  ++ [Request ListReleases];
                         exitCode := 0 |})).
    { unfold runChecks, bind at 1 2.
      rewrite (tag_check_answered remote options false start H0).
      rewrite release_check_rejected.
      + unfold extend. cbn [trace exitCode start app]. reflexivity.
      + unfold extend. cbn [trace start].
        rewrite issued_tag_report. exact H1. }
    split; [exact Hrun|exact (Hstatus _ _ Hrun)].
  - intros H0 H1.
    assert (Hrun : runChecks remote options start
                   = (Ret tt,
                      {| trace := Request ListTags
                                  :: tag_report remote options
                                  ++ Request ListReleases
                                  :: release_report remote options;
                         exitCode := if check_failed remote options
                                     then 1 else 0 |})).
    { unfold runChecks, check_failed, bind at 1 2.
      rewrite (tag_check_answered remote options false start H0).
      rewrite release_check_answered.
      + unfold extend. cbn [trace exitCode start app orb].
        destruct ((0 <? List.length (missing_tags remote options))%nat
                  || (0 <? List.length
                             (missing_releases remote options))%nat);
          reflexivity.
      + unfold extend. cbn [trace start].
        rewrite issued_tag_report. exact H1. }
    split; [exact Hrun|exact (Hstatus _ _ Hrun)].
Qed.

Lemma check_run_cut_short_witness :
  runChecks (mkRemote None None "c0ffee" (fun n => Nat.eqb n 1))
            [mkOption None (Some "v1") false] start
  = (Rejected,
     {| trace :=
          [Request ListTags;
           Report (missing_tags_text [mkOption None (Some "v1") false]);
           Request ListReleases];
        exitCode := 0 |})
  /\ status (runChecks (mkRemote None None "c0ffee" (fun n => Nat.eqb n 1))
                       [mkOption None (Some "v1") false] start)
     = Uncaught.
Proof.
  exact (proj1 (proj2 (check_run_cut_short
                         (mkRemote None None "c0ffee"
                                   (fun n => Nat.eqb n 1))
                         [mkOption None (Some "v1") false]))
               eq_refl eq_refl).
Defined.

(** ** Cost of a create run *)

Lemma total_delay_app (tr tr' : list Event) :
  total_delay (tr ++ tr') = (total_delay tr + total_delay tr')%Z.
Proof.
  induction tr as [|e rest IH]; simpl; [reflexivity|].
  destruct e; rewrite ?IH; lia.
Qed.

Lemma total_delay_blocks {A : Type} (f : A -> Call) (xs : list A) :
  total_delay (flat_map (fun x => [Request (f x); Delay API_DELAY_MS]) xs)
  = (API_DELAY_MS * Z.of_nat (List.length xs))%Z.
Proof.
  induction xs as [|x rest IH]; [reflexivity|].
  cbn [flat_map app total_delay List.length]. rewrite IH. lia.
Qed.

(** X7: a create run that goes through sends two listings, one deletion
    per release and per tag, one creation per option, and one more
    request when a tag is wanted; it waits 2500 ms after every one of
    them except that last one, that is 2500 ms times the number of
    releases, tags and options plus two. *)
Theorem create_run_cost (remote : Remote) (options : list CliOption)
  (Hanswered : forall n, rejects remote n = false)
  (Hvalid : existsb unclassifiable options = false) :
  List.length (calls (events (runCreate remote options start)))
  = (2 + List.length (or_empty (releases_data remote))
     + List.length (or_empty (tags_data remote))
     + (if existsb isTagOption options then 1 else 0)
     + List.length options)%nat
  /\ total_delay (events (runCreate remote options start))
     = (2500 * Z.of_nat (2 + List.length (or_empty (releases_data remote))
                         + List.length (or_empty (tags_data remote))
                         + List.length options))%Z.
Proof.
  unfold events.
  rewrite (runCreate_answered remote options Hanswered Hvalid).
  cbn [snd trace]. split.
  - rewrite calls_create_trace. cbn [List.length].
    rewrite length_app, length_map. cbn [List.length].
    rewrite !length_app, length_map, length_map.
    unfold anchor_events.
    destruct (existsb isTagOption options); simpl; lia.
  - unfold create_trace, delete_release_events, delete_tag_events,
      create_events, anchor_events.
    rewrite !total_delay_app, !total_delay_blocks.
    change API_DELAY_MS with 2500%Z.
    destruct (existsb isTagOption options); cbn [total_delay]; lia.
Qed.

Lemma create_run_cost_witness :
  total_delay
    (events (runCreate
               (mkRemote (Some [mkRelease 7 (Some "Old") "v0" false])
                         (Some [mkTag "v0" "a1"; mkTag "v1" "b2"])
                         "c0ffee" (fun _ => false))
               [mkOption (Some "Beta") (Some "v1.2.0") true;
                mkOption None (Some "v1.2.0-alpha") false] start))
  = 17500%Z.
Proof.
  exact (proj2 (create_run_cost
                  (mkRemote (Some [mkRelease 7 (Some "Old") "v0" false])
                            (Some [mkTag "v0" "a1"; mkTag "v1" "b2"])
                            "c0ffee" (fun _ => false))
                  [mkOption (Some "Beta") (Some "v1.2.0") true;
                   mkOption None (Some "v1.2.0-alpha") false]
                  (fun _ => eq_refl) eq_refl)).
Defined.

(** ** More about check mode *)





Lemma partition_length (options : list CliOption) :
  existsb unclassifiable options = false ->
  (List.length (filter isTagOption options)
   + List.length (filter isReleaseOption options))%nat
  = List.length options.
Proof.
  induction options as [|o rest IH]; simpl; [reflexivity|].
  intros H. apply orb_false_iff in H as [Ho Hrest].
  pose proof (classified_exactly_once o Ho) as Hx.
  specialize (IH Hrest).
  destruct (isTagOption o), (isReleaseOption o); simpl in *;
    try discriminate; lia.
Qed.

(** X9: the two partitions of a check run never overlap, and on a
    classified batch they cover it: every expected option is looked for
    exactly once, as a tag or as a release. *)
Theorem partitions_cover (options : list CliOption)
  (Hvalid : existsb unclassifiable options = false) :
  (List.length (filter isTagOption options)
   + List.length (filter isReleaseOption options))%nat
  = List.length options
  /\ (forall o, In o options ->
                (In o (filter isTagOption options) <->
                 ~ In o (filter isReleaseOption options)))
  /\ (forall o, isTagOption o && isReleaseOption o = false).
Proof.
  split; [apply partition_length, Hvalid|]. split.
  - intros o Ho. rewrite !filter_In.
    pose proof (classified_exactly_once o
                  (existsb_false_in _ _ _ Hvalid Ho)) as Hx.
    destruct (isTagOption o), (isReleaseOption o); simpl in Hx;
      try discriminate; intuition congruence.
  - intros o. unfold isTagOption, isReleaseOption.
    destruct (truthy (opt_tag o)), (truthy (opt_name o)), (opt_draft o);
      reflexivity.
Qed.

Lemma partitions_cover_witness :
  (List.length
     (filter isTagOption
             [mkOption (Some "Beta") (Some "v1.2.0") true;
              mkOption None (Some "v1.2.0-alpha") false])
   + List.length
       (filter isReleaseOption
               [mkOption (Some "Beta") (Some "v1.2.0") true;
                mkOption None (Some "v1.2.0-alpha") false]))%nat
  = 2%nat.
Proof.
  exact (proj1 (partitions_cover
                  [mkOption (Some "Beta") (Some "v1.2.0") true;
                   mkOption None (Some "v1.2.0-alpha") false] eq_refl)).
Defined.

(** ** Path helpers *)

Lemma append_cancel (a x y : string) :
  (a ++ x)%string = (a ++ y)%string -> x = y.
Proof.
  induction a as [|c rest IH]; simpl; intros H; [exact H|].
  injection H as H. exact (IH H).
Qed.

Lemma append_assoc (a b c : string) :
  ((a ++ b) ++ c)%string = (a ++ b ++ c)%string.
Proof.
  induction a as [|ch rest IH]; simpl; [reflexivity|].
  rewrite IH. reflexivity.
Qed.

Lemma prefix_append (a b : string) : String.prefix a (a ++ b) = true.
Proof.
  induction a as [|c rest IH]; simpl.
  - destruct b; reflexivity.
  - rewrite IH. destruct (ascii_dec c c); [reflexivity|contradiction].
Qed.

Lemma or_default_twice {A : Type} (x fallback : option A) :
  or_default (or_default x fallback) fallback = or_default x fallback.
Proof. destruct x, fallback; reflexivity. Qed.

(** X10: the path that deletes a release is the path that lists the
    releases of the same repository, a slash and the release id,
    whether the repository is passed or left to the environment; two
    ids give the same path only when they are the same. *)
Theorem delete_release_path (env : ActionEnv)
  (releaseId fullyQualifiedRepo : option string) :
  createDeleteReleasesPath env releaseId fullyQualifiedRepo
  = (createGetReleasesPath env fullyQualifiedRepo ++ "/"
       ++ show releaseId)%string
  /\ String.prefix (createGetReleasesPath env fullyQualifiedRepo)
                   (createDeleteReleasesPath env releaseId
                                             fullyQualifiedRepo)
     = true
  /\ (forall a b,
        createDeleteReleasesPath env (Some a) fullyQualifiedRepo
        = createDeleteReleasesPath env (Some b) fullyQualifiedRepo ->
        a = b).
Proof.
  assert (Heq : forall id,
            createDeleteReleasesPath env id fullyQualifiedRepo
            = (createGetReleasesPath env fullyQualifiedRepo ++ "/"
                 ++ show id)%string).
  { intros id. unfold createDeleteReleasesPath, createGetReleasesPath.
    cbv zeta. rewrite or_default_twice. reflexivity. }
  split; [apply Heq|]. split.
  - rewrite Heq. apply prefix_append.
  - intros a b H. rewrite !Heq in H.
    apply append_cancel in H. simpl in H. injection H as H. exact H.
Qed.

(** X11: the path that deletes the ref made by [createTagRef] for a tag
    name ends in [/git/refs/tags/] and the name, and two names give the
    same path only when they are the same; a name left out reads as the
    tag called [undefined]. *)
Theorem delete_tag_path (env : ActionEnv)
  (fullyQualifiedRepo : option string) :
  (forall tagName,
     createDeleteTagPath env (Some (createTagRef (Some tagName)))
                         fullyQualifiedRepo
     = ("/repos/"
          ++ show (or_default fullyQualifiedRepo (getRepoFromProcess env))
          ++ "/git/refs/tags/" ++ tagName)%string)
  /\ (forall a b,
        createDeleteTagPath env (Some (createTagRef (Some a)))
                            fullyQualifiedRepo
        = createDeleteTagPath env (Some (createTagRef (Some b)))
                              fullyQualifiedRepo ->
        a = b)
  /\ createTagRef None = createTagRef (Some "undefined").
Proof.
  split; [|split].
  - intros tagName. reflexivity.
  - intros a b H. unfold createDeleteTagPath, createTagRef in H.
    cbv zeta in H. cbn [show] in H.
    apply append_cancel in H. apply append_cancel in H.
    change ("/git/" ++ "refs/tags/" ++ a)%string
      with ("/git/refs/tags/" ++ a)%string in H.
    change ("/git/" ++ "refs/tags/" ++ b)%string
      with ("/git/refs/tags/" ++ b)%string in H.
    exact (append_cancel _ _ _ H).
  - reflexivity.
Qed.

(** X12: which repository the paths name.  A repository passed to a
    helper is used whatever the environment holds; one left out is read
    from [INPUT_REPO], also when that is the empty string, else from
    [GITHUB_REPOSITORY], else it reads [undefined]; and leaving it out
    gives, in the three helpers, the paths of the repository that
    [getRepoFromProcess] names. *)
Theorem repository_resolution (env : ActionEnv) :
  (forall repo env',
     createGetReleasesPath env (Some repo)
     = createGetReleasesPath env' (Some repo))
  /\ (forall repo,
        INPUT_REPO env = Some repo ->
        createGetReleasesPath env None
        = ("/repos/" ++ repo ++ "/releases")%string)
  /\ (forall repo,
        INPUT_REPO env = None -> GITHUB_REPOSITORY env = Some repo ->
        createGetReleasesPath env None
        = ("/repos/" ++ repo ++ "/releases")%string)
  /\ (INPUT_REPO env = None -> GITHUB_REPOSITORY env = None ->
      createGetReleasesPath env None = "/repos/undefined/releases")
  /\ (forall releaseId tagRef,
        createGetReleasesPath env None
        = createGetReleasesPath env (Some (show (getRepoFromProcess env)))
        /\ createDeleteReleasesPath env releaseId None
           = createDeleteReleasesPath
               env releaseId (Some (show (getRepoFromProcess env)))
        /\ createDeleteTagPath env tagRef None
           = createDeleteTagPath
               env tagRef (Some (show (getRepoFromProcess env)))).
Proof.
  unfold createDeleteReleasesPath, createDeleteTagPath,
    createGetReleasesPath, getRepoFromProcess.
  split; [reflexivity|]. split; [intros repo ->; reflexivity|].
  split; [intros repo -> ->; reflexivity|].
  split; [intros -> ->; reflexivity|].
  intros releaseId tagRef.
  destruct (INPUT_REPO env), (GITHUB_REPOSITORY env);
    repeat split; reflexivity.
Qed.

Lemma repository_resolution_witness :
  createGetReleasesPath (mkActionEnv (Some "") (Some "octo/repo")) None
  = "/repos//releases"
  /\ createGetReleasesPath (mkActionEnv None (Some "octo/repo")) None
     = "/repos/octo/repo/releases".
Proof.
  split.
  - exact (proj1 (proj2 (repository_resolution
                           (mkActionEnv (Some "") (Some "octo/repo"))))
                 "" eq_refl).
  - exact (proj1 (proj2 (proj2 (repository_resolution
                                  (mkActionEnv None (Some "octo/repo")))))
                 "octo/repo" eq_refl eq_refl).
Defined.

Lemma delete_release_path_witness :
  createDeleteReleasesPath (mkActionEnv None (Some "octo/repo"))
                           (Some "42") None
  = "/repos/octo/repo/releases/42"
  /\ String.prefix
       (createGetReleasesPath (mkActionEnv None (Some "octo/repo")) None)
       (createDeleteReleasesPath (mkActionEnv None (Some "octo/repo"))
                                 (Some "42") None)
     = true.
Proof.
  destruct (delete_release_path (mkActionEnv None (Some "octo/repo"))
                                (Some "42") None) as (Heq & Hprefix & _).
  split; [exact Heq|exact Hprefix].
Defined.

Lemma delete_tag_path_witness :
  createDeleteTagPath (mkActionEnv None (Some "octo/repo"))
                      (Some (createTagRef (Some "v1"))) None
  = "/repos/octo/repo/git/refs/tags/v1"
  /\ createTagRef None = "refs/tags/undefined".
Proof.
  destruct (delete_tag_path (mkActionEnv None (Some "octo/repo")) None)
    as (Hpath & _ & Hnone).
  split; [exact (Hpath "v1")|exact Hnone].
Defined.

(** ** An empty repository *)

Lemma nothing_found {A B : Type} (matches : B -> A -> bool)
  (options : list B) :
  filter (fun o => negb (defined (find (matches o) []))) options = options.
Proof.
  induction options as [|o rest IH]; simpl; [reflexivity|].
  f_equal. exact IH.
Qed.

Lemma or_empty_nothing {A : Type} (data : option (list A)) :
  data = None \/ data = Some [] -> or_empty data = [].
Proof. intros [-> | ->]; reflexivity. Qed.

(** X13: a listing answered without data counts as an empty listing.
    Against a repository whose listings are empty or carry no data, a
    create run in which every request is answered lists the releases and
    the tags, sends no deletion at all and goes on to the creations; a
    check run reports every expected tag and every expected release as
    missing, in input order, and ends with exit code 1 on any classified
    batch that is not empty. *)
Theorem empty_repository (remote : Remote) (options : list CliOption)
  (Hanswered : forall n, rejects remote n = false)
  (Htags : tags_data remote = None \/ tags_data remote = Some [])
  (Hreleases : releases_data remote = None
               \/ releases_data remote = Some []) :
  (existsb unclassifiable options = false ->
   runCreate remote options start
   = (Ret tt,
      {| trace :=
           [Request ListReleases; Delay 2500; Request ListTags; Delay 2500]
             ++ anchor_events options
             ++ flat_map (create_events (Some (main_sha remote))) options;
         exitCode := 0 |})
   /\ (forall release_id,
         ~ In (DeleteRelease release_id)
              (calls (events (runCreate remote options start))))
   /\ (forall ref,
         ~ In (DeleteRef ref)
              (calls (events (runCreate remote options start)))))
  /\ runChecks remote options start
     = (Ret tt,
        {| trace :=
             Request ListTags
             :: match filter isTagOption options with
                | [] => []
                | _ :: _ =>
                    [Report (missing_tags_text
                               (filter isTagOption options))]
                end
             ++ Request ListReleases
             :: match filter isReleaseOption options with
                | [] => []
                | _ :: _ =>
                    [Report (missing_releases_text
                               (filter isReleaseOption options))]
                end;
           exitCode :=
             match filter isTagOption options,
                   filter isReleaseOption options with
             | [], [] => 0
             | _, _ => 1
             end |})
  /\ (existsb unclassifiable options = false -> options <> [] ->
      status (runChecks remote options start) = Exited 1).
Proof.
  pose proof (or_empty_nothing _ Htags) as Ht0.
  pose proof (or_empty_nothing _ Hreleases) as Hr0.
  assert (Ht : missing_tags remote options = filter isTagOption options).
  { unfold missing_tags, notFound. rewrite Ht0. apply nothing_found. }
  assert (Hr : missing_releases remote options
               = filter isReleaseOption options).
  { unfold missing_releases, notFoundReleases. rewrite Hr0.
    apply nothing_found. }
  assert (Hchecks :
    runChecks remote options start
    = (Ret tt,
       {| trace :=
            Request ListTags
            :: match filter isTagOption options with
               | [] => []
               | _ :: _ =>
                   [Report (missing_tags_text (filter isTagOption options))]
               end
            ++ Request ListReleases
            :: match filter isReleaseOption options with
               | [] => []
               | _ :: _ =>
                   [Report (missing_releases_text
                              (filter isReleaseOption options))]
               end;
          exitCode :=
            match filter isTagOption options,
                  filter isReleaseOption options with
            | [], [] => 0
            | _, _ => 1
            end |})).
  { rewrite (runChecks_answered remote Hanswered options start).
    unfold tag_report, release_report, check_failed.
    rewrite Ht, Hr, !(proj1 (messages_written_out _)),
      !(proj2 (messages_written_out _)).
    destruct (filter isTagOption options),
      (filter isReleaseOption options); reflexivity. }
  split; [|split; [exact Hchecks|]].
  - intros Hvalid.
    pose proof (runCreate_answered remote options Hanswered Hvalid) as Hrun.
    assert (Hcalls : calls (events (runCreate remote options start))
                     = ListReleases :: ListTags
                       :: calls (anchor_events options)
                       ++ map (create_call (Some (main_sha remote))) options).
    { unfold events. rewrite Hrun. cbn [snd trace].
      rewrite calls_create_trace, Ht0, Hr0. reflexivity. }
    assert (Hnone : forall call,
              In call (calls (events (runCreate remote options start))) ->
              (forall id, call <> DeleteRelease id)
              /\ (forall ref, call <> DeleteRef ref)).
    { intros call Hin. rewrite Hcalls in Hin.
      destruct Hin as [<-|[<-|Hin]]; [split; discriminate..|].
      apply in_app_or in Hin as [Hin|Hin].
      - unfold anchor_events in Hin.
        destruct (existsb isTagOption options); [|contradiction].
        destruct Hin as [<-|[]]. split; discriminate.
      - apply in_map_iff in Hin as (o & <- & _). unfold create_call.
        destruct (isReleaseOption o); split; discriminate. }
    split; [|split].
    + rewrite Hrun. unfold create_trace. rewrite Ht0, Hr0. reflexivity.
    + intros id Hin. exact (proj1 (Hnone _ Hin) id eq_refl).
    + intros ref Hin. exact (proj2 (Hnone _ Hin) ref eq_refl).
  - intros Hvalid Hnonempty. unfold status. rewrite Hchecks.
    cbn [fst snd exitCode].
    pose proof (partition_length options Hvalid) as Hlen.
    destruct options as [|o rest]; [contradiction Hnonempty; reflexivity|].
    destruct (filter isTagOption (o :: rest)); [|reflexivity].
    destruct (filter isReleaseOption (o :: rest)); [|reflexivity].
    simpl in Hlen. discriminate Hlen.
Qed.

Lemma empty_repository_witness :
  runChecks (mkRemote None (Some []) "c0ffee" (fun _ => false))
            [mkOption (Some "Beta") (Some "v1.2.0") true;
             mkOption None (Some "v1.2.0-alpha") false] start
  = (Ret tt,
     {| trace :=
          [Request ListTags;
           Report (missing_tags_text
                     [mkOption None (Some "v1.2.0-alpha") false]);
           Request ListReleases;
           Report (missing_releases_text
                     [mkOption (Some "Beta") (Some "v1.2.0") true])];
        exitCode := 1 |})
  /\ events (runCreate (mkRemote None (Some []) "c0ffee" (fun _ => false))
                       [mkOption (Some "Beta") (Some "v1.2.0") true;
                        mkOption None (Some "v1.2.0-alpha") false] start)
     = [Request ListReleases; Delay 2500; Request ListTags; Delay 2500;
        Request (GetBranch "main");
        Request (CreateRelease (Some "v1.2.0") (Some "Beta") true);
        Delay 2500;
        Request (CreateRef "refs/tags/v1.2.0-alpha" (Some "c0ffee"));
        Delay 2500].
Proof.
  destruct (empty_repository
              (mkRemote None (Some []) "c0ffee" (fun _ => false))
              [mkOption (Some "Beta") (Some "v1.2.0") true;
               mkOption None (Some "v1.2.0-alpha") false]
              (fun _ => eq_refl) (or_intror eq_refl) (or_introl eq_refl))
    as (Hcreate & Hchecks & _).
  split; [exact Hchecks|].
  unfold events. rewrite (proj1 (Hcreate eq_refl)). reflexivity.
Defined.
